(** * reddit_upvotes_dl: a model of the upvoted-image scraper

    The definitions below follow [reddit_upvotes_dl.py] function by function.
    Discovery ([RedditScraper.get_posts], [parse_posts], [App.grab_links],
    [App.get_imgur_links]) is sequential code that threads the application
    state and may raise; it is written in a small state-and-exception monad.
    The download phase ([DownloadWorker.run], [App.run]) is concurrent; it is
    written as a step function per thread, run under an explicit schedule. *)

From Stdlib Require Import String Ascii List Arith Lia Bool.
From stdpp Require Import base option list gmap strings fin_maps fin_sets.
Import ListNotations.
Local Open Scope string_scope.

(** ** Python string operations used by the program *)

Module PyStr.

(** [s.split(sep)] for a one-character separator: never the empty list. *)
Fixpoint split (sep : ascii) (s : string) : list string :=
  match s with
  | EmptyString => [EmptyString]
  | String c rest =>
      if Ascii.eqb c sep then EmptyString :: split sep rest
      else match split sep rest with
           | seg :: segs => String c seg :: segs
           | [] => [String c EmptyString]
           end
  end.

(** [sep.join(parts)]. *)
Fixpoint join (sep : string) (parts : list string) : string :=
  match parts with
  | [] => EmptyString
  | [p] => p
  | p :: ps => p ++ sep ++ join sep ps
  end.

(** [parts[-1]] on a list that [split] returned. *)
Definition last_segment (parts : list string) : string :=
  List.last parts EmptyString.

(** [parts.insert(i, x)]: positions past the end mean the end. *)
Definition insert_at {A} (i : nat) (x : A) (l : list A) : list A :=
  take i l ++ x :: drop i l.

(** [parts[:-1]]. *)
Definition drop_last {A} (l : list A) : list A := List.removelast l.

(** [needle in hay] on strings. *)
Fixpoint contains (needle hay : string) : bool :=
  String.prefix needle hay ||
  match hay with
  | EmptyString => false
  | String _ rest => contains needle rest
  end.

(** [s + '_copy'] repeated [k] times. *)
Fixpoint add_copies (k : nat) (s : string) : string :=
  match k with
  | 0 => s
  | S k' => add_copies k' (s ++ "_copy")
  end.

End PyStr.

(** ** Data *)

(** A post dictionary after [get_posts] kept the keys in [parameters]; the
    listing endpoint delivers all five as strings.  [parse_posts] adds the
    key ['download_path'], absent ([None]) before that. *)
Record post := mkPost {
  title : string;
  subreddit : string;
  url : string;
  domain : string;
  thumbnail : string;
  download_path : option string
}.

(** An item of the download queue: [(url, download_path, subreddit)]. *)
Definition task : Type := string * string * string.

(** An item of the status queue: [(url, subreddit, 'Success' | 'Failed')]. *)
Inductive status := Success | Failed.
Definition download_status : Type := string * string * status.

(** ** [get_subreddits] *)

(** [{s: path for s in subs}] *)
Definition subs_dict (path : string) (subs : list string) : gmap string string :=
  foldl (fun d s => <[s := path]> d) ∅ subs.

(** [subreddits.update(d)]: the entries of [d] replace those of [subreddits]. *)
Definition dict_update (subreddits d : gmap string string) : gmap string string :=
  d ∪ subreddits.

(** The body of [get_subreddits] after the file has been parsed: [file] is
    [file.items()], the folder paths with their lists of subreddits, in the
    order of the file. *)
Definition get_subreddits (file : list (string * list string)) : gmap string string :=
  foldl (fun subreddits '(path, subs) => dict_update subreddits (subs_dict path subs))
        ∅ file.

(** ** [parse_posts] *)

Definition set_download_path (p : post) (d : string) : post :=
  {| title := title p; subreddit := subreddit p; url := url p;
     domain := domain p; thumbnail := thumbnail p; download_path := Some d |}.

Fixpoint parse_posts (posts : list post) (subreddits : gmap string string) : list post :=
  match posts with
  | [] => []
  | p :: rest =>
      match subreddits !! subreddit p with
      | Some d =>
          if negb (String.eqb (thumbnail p) "self")
          then set_download_path p d :: parse_posts rest subreddits
          else parse_posts rest subreddits
      | None => parse_posts rest subreddits
      end
  end.

(** ** The file system: [image_exists] and [save_image] *)

Definition content : Type := list Byte.byte.

(** [download_path + '\\' + filename] *)
Definition file_path (download_path filename : string) : string :=
  download_path ++ "\" ++ filename.

(** [os.path.isfile]: the files of the model are the keys of the map. *)
Definition isfile (fs : gmap string content) (path : string) : bool :=
  bool_decide (is_Some (fs !! path)).

Definition url_filename (u : string) : string :=
  PyStr.last_segment (PyStr.split "/" u).

Definition image_exists (fs : gmap string content) (u download_path : string) : bool :=
  isfile fs (file_path download_path (url_filename u)).

(** The [while] loop of [save_image], at most [fuel] tests of the condition. *)
Fixpoint free_name (fuel : nat) (fs : gmap string content)
    (download_path filename : string) : option string :=
  match fuel with
  | 0 => None
  | S fuel' =>
      if isfile fs (file_path download_path filename)
      then free_name fuel' fs download_path (filename ++ "_copy")
      else Some filename
  end.

(** What [requests.get(url, stream=True, timeout=15)] and the copy of
    [response.raw] do: the request raises, or a stream arrives whose copy
    writes [bytes] and then ends ([complete]) or raises. *)
Inductive fetched :=
| FetchRaises
| Stream (bytes : content) (complete : bool).

Inductive saved :=
| Saved (fs' : gmap string content)
| SaveRaised (fs' : gmap string content).

Definition saved_fs (r : saved) : gmap string content :=
  match r with Saved fs' => fs' | SaveRaised fs' => fs' end.

(** [save_image]; [open_fails] tells whether [open(path, 'wb')] raises.
    The loop gets one more test than there are files, which is enough for
    it to end ([free_name_terminates]): the [None] branch is never taken. *)
Definition save_image (fetch : string -> fetched) (open_fails : string -> bool)
    (fs : gmap string content) (u download_path : string) : saved :=
  match free_name (S (size fs)) fs download_path (url_filename u) with
  | None => SaveRaised fs
  | Some filename =>
      match fetch u with
      | FetchRaises => SaveRaised fs
      | Stream bytes complete =>
          let path := file_path download_path filename in
          if open_fails path then SaveRaised fs
          else if complete then Saved (<[path := bytes]> fs)
          else SaveRaised (<[path := bytes]> fs)
      end
  end.

(** ** Discovery: the scraper and [App.grab_links] *)

(** The reply to the GET of a listing page, as [get_posts] sees it:
    [raise_for_status] raises; or [response.json()] or the subscripts
    [data['data']['after']] raise; or ['after'] is there ([None] for
    [null]) but the loop over the children raises; or it is a listing with
    its ['after'] field and its children. *)
Inductive listing_reply :=
| HttpError
| BadJson
| BadChildren (after : option string)
| Listing (after : option string) (children : list post).

Definition listing_fails (r : listing_reply) : bool :=
  match r with
  | Listing _ _ => false
  | _ => true
  end.

(** The remote side.  Every oracle takes the GETs issued so far, so a URL
    may be answered differently each time it is asked. *)
Record web := mkWeb {
  listing : list string -> string -> listing_reply;
  (** the hrefs of the [a] elements of class [zoom] of an album page, or
      [None] when the request or the HTML parser raises *)
  album : list string -> string -> option (list string)
}.

(** The state discovery works on: [scraper.current_page], the download
    queue (oldest first), and the GETs issued, oldest first. *)
Record app := mkApp {
  current_page : string;
  queue : list task;
  gets : list string
}.

Inductive exn := ListingError | AlbumError | KeyError.

Inductive outcome (A : Type) :=
| Ret (x : A) (a : app)
| Raise (e : exn) (a : app)
| Unfinished (a : app).
Arguments Ret {A} x a.
Arguments Raise {A} e a.
Arguments Unfinished {A} a.

Definition M (A : Type) : Type := app -> outcome A.

Definition ret {A} (x : A) : M A := fun a => Ret x a.
Definition raise {A} (e : exn) : M A := fun a => Raise e a.
Definition bind {A B} (m : M A) (k : A -> M B) : M B :=
  fun a => match m a with
           | Ret x a' => k x a'
           | Raise e a' => Raise e a'
           | Unfinished a' => Unfinished a'
           end.

Notation "x <- m ;; k" := (bind m (fun x => k))
  (at level 100, m at next level, right associativity).
Notation "m ;;; k" := (bind m (fun _ => k))
  (at level 100, right associativity).

Definition get_state : M app := fun a => Ret a a.
Definition set_current_page (p : string) : M unit :=
  fun a => Ret tt {| current_page := p; queue := queue a; gets := gets a |}.
(** [self.queue.put(t)] *)
Definition put (t : task) : M unit :=
  fun a => Ret tt {| current_page := current_page a; queue := queue a ++ [t];
                     gets := gets a |}.
(** The record of a GET. *)
Definition log_get (u : string) : M unit :=
  fun a => Ret tt {| current_page := current_page a; queue := queue a;
                     gets := gets a ++ [u] |}.

(** The URL [get_posts] asks for: ['.json?'] inserted at position 6 of the
    segments of [current_page]. *)
Definition json_url (page : string) : string :=
  PyStr.join "/" (PyStr.insert_at 6 ".json?" (PyStr.split "/" page)).

(** ['{}'.format(last_post_id)] *)
Definition format_after (last_post_id : option string) : string :=
  match last_post_id with
  | Some i => i
  | None => "None"
  end.

(** [get_next_page] *)
Definition get_next_page (page : string) (last_post_id : option string) : string :=
  PyStr.join "/" (PyStr.drop_last (PyStr.split "/" page)
                    ++ ["?count=25&after=" ++ format_after last_post_id]).

(** [get_posts] *)
Definition get_posts (w : web) : M (list post) :=
  a <- get_state ;;
  let u := json_url (current_page a) in
  log_get u ;;;
  match listing w (gets a) u with
  | HttpError => raise ListingError
  | BadJson => raise ListingError
  | BadChildren after =>
      set_current_page (get_next_page (current_page a) after) ;;;
      raise ListingError
  | Listing after children =>
      set_current_page (get_next_page (current_page a) after) ;;;
      ret children
  end.

(** [get_imgur_links] *)
Fixpoint put_links (links : list string) (download_path sub : string) : M unit :=
  match links with
  | [] => ret tt
  | link :: rest =>
      put ("http:" ++ link, download_path, sub) ;;;
      put_links rest download_path sub
  end.

Definition get_imgur_links (w : web) (p : post) (download_path : string) : M unit :=
  a <- get_state ;;
  log_get (url p) ;;;
  match album w (gets a) (url p) with
  | None => raise AlbumError
  | Some links => put_links links download_path (subreddit p)
  end.

(** The condition under which [grab_links] calls [get_imgur_links]. *)
Definition is_album (p : post) : bool :=
  PyStr.contains "imgur" (domain p) &&
  negb (PyStr.contains ".jpeg" (url p) || PyStr.contains ".png" (url p)).

(** The [for post in posts] loop of [grab_links]; the result is
    [found_existing], [true] when the loop left through [break]. *)
Fixpoint for_posts (w : web) (fs : gmap string content) (posts : list post) : M bool :=
  match posts with
  | [] => ret false
  | p :: rest =>
      match download_path p with
      | None => raise KeyError
      | Some d =>
          if image_exists fs (url p) d then ret true
          else
            (if is_album p then get_imgur_links w p d else ret tt) ;;;
            put (url p, d, subreddit p) ;;;
            for_posts w fs rest
      end
  end.

(** [grab_links]: at most [fuel] turns of [while not found_existing]. *)
Fixpoint grab_links (w : web) (fs : gmap string content)
    (subreddits : gmap string string) (fuel : nat) : M unit :=
  match fuel with
  | 0 => fun a => Unfinished a
  | S fuel' =>
      posts <- get_posts w ;;
      found_existing <- for_posts w fs (parse_posts posts subreddits) ;;
      if found_existing : bool then ret tt
      else grab_links w fs subreddits fuel'
  end.

(** ** The download phase: [DownloadWorker.run] and the loop of [App.run] *)

Definition NUM_WORKERS : nat := 4.

Module Download.

(** Where a [DownloadWorker] stands in [run]. *)
Inductive worker :=
| AtEmpty                (* about to test [not self.queue.empty()] *)
| AtGet                  (* about to call [self.queue.get()] *)
| AtSave (t : task)      (* holds [t]; about to enter [save_image] *)
| AtRequest (t : task) (filename : string)
                         (* the [while] loop has ended on [filename];
                            about to call [requests.get] *)
| AtWrite (t : task) (filename : string) (r : fetched)
                         (* the request has returned or raised; about to
                            [open] the file and copy, or, when it raised,
                            to enter the [except] clause *)
| AtPut (t : task) (st : status)
                         (* about to call [self.status_queue.put] *)
| AtTaskDone             (* about to call [self.queue.task_done()] *)
| Exited.                (* [run] has returned: the thread is not alive *)

(** Where the main thread stands in the loop of [App.run]. *)
Inductive main :=
| AtAlive                (* about to test [self.workers_alive()] *)
| AtStatusGet            (* about to call [self.status_queue.get()] *)
| Done.                  (* the loop is left, ['Done'] is printed *)

(** A line of the report: status, file name, subreddit. *)
Definition line : Type := status * string * string.

Record pool := mkPool {
  queue : list task;
  status_queue : list download_status;
  threads : list worker;
  main_pc : main;
  reported : list line;
  files : gmap string content
}.

Inductive tid := Worker (i : nat) | Main.

Definition is_alive (t : worker) : bool :=
  match t with Exited => false | _ => true end.

(** [workers_alive] *)
Definition workers_alive (p : pool) : bool := existsb is_alive (threads p).

(** The task that a worker has taken and not yet answered for. *)
Definition held (t : worker) : option task :=
  match t with
  | AtSave t | AtRequest t _ | AtWrite t _ _ | AtPut t _ => Some t
  | _ => None
  end.

Definition set_thread (i : nat) (t : worker) (p : pool) : pool :=
  {| queue := queue p; status_queue := status_queue p;
     threads := <[i := t]> (threads p); main_pc := main_pc p;
     reported := reported p; files := files p |}.

Section Steps.
Variable fetch : string -> fetched.
Variable open_fails : string -> bool.

(** One step of worker [i]; [None] when the thread cannot move: it has
    exited, or it is inside [queue.get()] and the queue is empty.
    The statements of [save_image] are steps of their own, so that other
    threads can move between the test of the name, the request and the
    write.  The [while] loop is one step, taken at its last test: no
    thread removes a file, so the names it went past are still there. *)
Definition worker_step (i : nat) (p : pool) : option pool :=
  match threads p !! i with
  | None => None
  | Some AtEmpty =>
      Some (set_thread i (match queue p with [] => Exited | _ => AtGet end) p)
  | Some AtGet =>
      match queue p with
      | [] => None
      | t :: rest =>
          Some {| queue := rest; status_queue := status_queue p;
                  threads := <[i := AtSave t]> (threads p);
                  main_pc := main_pc p; reported := reported p;
                  files := files p |}
      end
  | Some (AtSave (u, d, sub)) =>
      Some (set_thread i
              (match free_name (S (size (files p))) (files p) d (url_filename u) with
               | Some filename => AtRequest (u, d, sub) filename
               | None => AtPut (u, d, sub) Failed
               end) p)
  | Some (AtRequest (u, d, sub) filename) =>
      Some (set_thread i (AtWrite (u, d, sub) filename (fetch u)) p)
  | Some (AtWrite (u, d, sub) filename r) =>
      match r with
      | FetchRaises => Some (set_thread i (AtPut (u, d, sub) Failed) p)
      | Stream bytes complete =>
          if open_fails (file_path d filename)
          then Some (set_thread i (AtPut (u, d, sub) Failed) p)
          else
            Some {| queue := queue p; status_queue := status_queue p;
                    threads :=
                      <[i := AtPut (u, d, sub) (if complete then Success else Failed)]>
                        (threads p);
                    main_pc := main_pc p; reported := reported p;
                    files := <[file_path d filename := bytes]> (files p) |}
      end
  | Some (AtPut (u, d, sub) st) =>
      Some {| queue := queue p;
              status_queue := status_queue p ++ [(u, sub, st)];
              threads := <[i := AtTaskDone]> (threads p);
              main_pc := main_pc p; reported := reported p;
              files := files p |}
  | Some AtTaskDone => Some (set_thread i AtEmpty p)
  | Some Exited => None
  end.

Definition set_main (m : main) (p : pool) : pool :=
  {| queue := queue p; status_queue := status_queue p;
     threads := threads p; main_pc := m;
     reported := reported p; files := files p |}.

(** One step of the main thread; [None] when it cannot move: the loop
    is left, or it is inside [status_queue.get()] and that queue is
    empty. *)
Definition main_step (p : pool) : option pool :=
  match main_pc p with
  | AtAlive => Some (set_main (if workers_alive p then AtStatusGet else Done) p)
  | AtStatusGet =>
      match status_queue p with
      | [] => None
      | (u, sub, st) :: rest =>
          Some {| queue := queue p; status_queue := rest;
                  threads := threads p; main_pc := AtAlive;
                  reported := reported p ++ [(st, url_filename u, sub)];
                  files := files p |}
      end
  | Done => None
  end.

Definition step (t : tid) (p : pool) : option pool :=
  match t with
  | Worker i => worker_step i p
  | Main => main_step p
  end.

(** The threads move in the order of the schedule; a thread that
    cannot move when its turn comes leaves the state as it is. *)
Fixpoint run_schedule (sched : list tid) (p : pool) : pool :=
  match sched with
  | [] => p
  | t :: rest =>
      match step t p with
      | Some p' => run_schedule rest p'
      | None => run_schedule rest p
      end
  end.

End Steps.

(** The state when [start_workers] has started [n] workers on a queue
    that discovery has filled. *)
Definition start_workers (n : nat) (q : list task) (fs : gmap string content) : pool :=
  {| queue := q; status_queue := []; threads := replicate n AtEmpty;
     main_pc := AtAlive; reported := []; files := fs |}.

End Download.

(** ** [App.run]: discovery, then the download phase *)

Inductive run_result :=
| Aborted (e : exn) (a : app)
| StillDiscovering (a : app)
| Downloading (p : Download.pool).

Definition App_run (w : web) (fetch : string -> fetched) (open_fails : string -> bool)
    (fs : gmap string content) (subreddits : gmap string string)
    (fuel : nat) (sched : list Download.tid) (a : app) : run_result :=
  match grab_links w fs subreddits fuel a with
  | Raise e a' => Aborted e a'
  | Unfinished a' => StillDiscovering a'
  | Ret _ a' =>
      Downloading (Download.run_schedule fetch open_fails sched
                     (Download.start_workers NUM_WORKERS (queue a') fs))
  end.

(** The state in which [App.__init__] leaves the scraper. *)
Definition initial_app (username : string) : app :=
  {| current_page := "https://www.reddit.com/user/" ++ username ++ "/upvoted/";
     queue := []; gets := [] |}.

(** * Definitions used in the statements *)

(** The loop of [get_subreddits] started on any dictionary. *)
Definition fold_file (acc : gmap string string) (file : list (string * list string)) :=
  foldl (fun subreddits '(path, subs) => dict_update subreddits (subs_dict path subs))
        acc file.

(** What [parse_posts] does with one post. *)
Definition keep (subreddits : gmap string string) (p : post) : option post :=
  match subreddits !! subreddit p with
  | Some d => if negb (String.eqb (thumbnail p) "self")
              then Some (set_download_path p d) else None
  | None => None
  end.

(** One turn of the [while] loop of [grab_links], up to the test of
    [found_existing]. *)
Definition turn (w : web) (fs : gmap string content)
    (subreddits : gmap string string) : M bool :=
  posts <- get_posts w ;;
  for_posts w fs (parse_posts posts subreddits).

(** The state after [n] turns that each ended with [found_existing] still
    false; [None] when the loop does not get that far. *)
Fixpoint after_turns (w : web) (fs : gmap string content)
    (subreddits : gmap string string) (n : nat) (a : app) : option app :=
  match n with
  | 0 => Some a
  | S n' =>
      match turn w fs subreddits a with
      | Ret false a' => after_turns w fs subreddits n' a'
      | _ => None
      end
  end.

(** The state after the GET of a listing page that was answered. *)
Definition page_fetched (a : app) (after : option string) : app :=
  {| current_page := get_next_page (current_page a) after;
     queue := queue a;
     gets := gets a ++ [json_url (current_page a)] |}.

(** The state after a GET that raised. *)
Definition get_failed (a : app) (u : string) : app :=
  {| current_page := current_page a; queue := queue a; gets := gets a ++ [u] |}.

(** The state after the expansion of an album and the [put] of the post
    itself. *)
Definition album_queued (a : app) (p : post) (d : string) (links : list string) : app :=
  {| current_page := current_page a;
     queue := (queue a ++ map (fun l => ("http:" ++ l, d, subreddit p)) links)
                ++ [(url p, d, subreddit p)];
     gets := gets a ++ [url p] |}.

(** The state in which a computation ends, however it ends. *)
Definition final_state {A} (o : outcome A) : app :=
  match o with Ret _ a => a | Raise _ a => a | Unfinished a => a end.

(** Worker [i] is inside [queue.get()] and the queue is empty. *)
Definition waiting (i : nat) (p : Download.pool) : Prop :=
  Download.queue p = [] /\ Download.threads p !! i = Some Download.AtGet.

(** ** Example data *)

Definition foo_fs : gmap string content := {[ "C:\pics\foo.jpg" := [Byte.x00] ]}.

Definition pics_map : gmap string string := get_subreddits [("C:\pics", ["pics"])].

Definition example_post (name host : string) : post :=
  {| title := name; subreddit := "pics";
     url := "http://" ++ host ++ "/" ++ name;
     domain := host; thumbnail := "thumb"; download_path := None |}.

Definition start : app := initial_app "u".

(** Answers the first page with [page1], every other request with [page2]. *)
Definition two_pages (page1 page2 : listing_reply) (_ : list string) (u : string)
    : listing_reply :=
  if String.eqb u (json_url (current_page start)) then page1 else page2.

Definition no_albums (_ : list string) (_ : string) : option (list string) := Some [].

Definition stop_web : web :=
  {| listing := two_pages
       (Listing (Some "t3_a") [example_post "a.png" "x.com"])
       (Listing (Some "t3_d") [example_post "c.png" "x.com";
                               example_post "b.png" "x.com";
                               example_post "d.png" "x.com"]);
     album := no_albums |}.

Definition b_saved : gmap string content := {[ "C:\pics\b.png" := [] ]}.

Definition no_files : gmap string content := ∅.

Definition broken_web : web :=
  {| listing := two_pages
       (Listing (Some "t3_a") [example_post "a.png" "x.com"]) HttpError;
     album := no_albums |}.

Definition two_images (_ : list string) (_ : string) : option (list string) :=
  Some ["//i.imgur.com/1.jpg"; "//i.imgur.com/2.jpg"].

Definition album_web : web :=
  {| listing := two_pages
       (Listing (Some "t3_b") [example_post "a/xyz" "imgur.com";
                               example_post "b.png" "x.com"])
       (Listing None []);
     album := two_images |}.

Definition no_album_page (_ : list string) (_ : string) : option (list string) := None.

Definition album_down_web : web :=
  {| listing := two_pages
       (Listing (Some "t3_c") [example_post "a/xyz" "imgur.com";
                               example_post "c.png" "x.com"])
       (Listing None []);
     album := no_album_page |}.

Definition always_empty (_ : list string) (_ : string) : listing_reply := Listing None [].

Definition exhausted_web : web := {| listing := always_empty; album := no_albums |}.

Definition empty_then_known_web : web :=
  {| listing := two_pages (Listing None [])
                  (Listing (Some "t3_b") [example_post "b.png" "x.com"]);
     album := no_albums |}.

(** ** Definitions for the further properties *)

(** [c in s] for a character. *)
Fixpoint has_char (c : ascii) (s : string) : bool :=
  match s with
  | EmptyString => false
  | String x rest => Ascii.eqb x c || has_char c rest
  end.

(** The five fields that a post has from the listing. *)
Definition listed_fields (p : post) : string * string * string * string * string :=
  (title p, subreddit p, url p, domain p, thumbnail p).

(** The destination of a task is the folder that the map gives for the
    subreddit of the task. *)
Definition configured (subreddits : gmap string string) (t : task) : Prop :=
  match t with
  | (_, d, sub) => subreddits !! sub = Some d
  end.

(** A post as [parse_posts] leaves it: [download_path] is the folder of its
    subreddit. *)
Definition routed (subreddits : gmap string string) (p : post) : Prop :=
  exists d, download_path p = Some d /\ subreddits !! subreddit p = Some d.

(** The tasks that workers hold between [queue.get()] and the status. *)
Definition in_flight (p : Download.pool) : list task :=
  omap Download.held (Download.threads p).

(** What identifies a download in the report: file name and subreddit. *)
Definition task_line (t : task) : string * string :=
  match t with (u, _, sub) => (url_filename u, sub) end.

Definition status_line (s : download_status) : string * string :=
  match s with (u, sub, _) => (url_filename u, sub) end.

Definition line_key (l : Download.line) : string * string :=
  match l with (_, f, sub) => (f, sub) end.

(** Every download of the phase, wherever it stands: reported, waiting in
    the status queue, held by a worker, or still in the download queue. *)
Definition accounted (p : Download.pool) : list (string * string) :=
  map line_key (Download.reported p)
    ++ map status_line (Download.status_queue p)
    ++ map task_line (in_flight p)
    ++ map task_line (Download.queue p).

(** A schedule on which worker 0 downloads [k] tasks one after the other,
    the main thread reporting each before the worker goes on; then the
    four workers find the queue empty and return, and the main thread
    tests [workers_alive]. *)
Fixpoint in_turn (k : nat) : list Download.tid :=
  match k with
  | 0 => [Download.Worker 0; Download.Worker 1; Download.Worker 2;
          Download.Worker 3; Download.Main]
  | S k' =>
      [Download.Worker 0; Download.Worker 0; Download.Worker 0;
       Download.Worker 0; Download.Worker 0; Download.Worker 0;
       Download.Main; Download.Main; Download.Worker 0] ++ in_turn k'
  end.

(** Once the main thread has left its loop, all workers have exited. *)
Definition done_after_workers (p : Download.pool) : Prop :=
  Download.main_pc p = Download.Done -> Download.workers_alive p = false.

(** A worker returns only on an empty queue, and the queue is not filled
    again. *)
Definition exited_on_empty (p : Download.pool) : Prop :=
  (exists i, Download.threads p !! i = Some Download.Exited) -> Download.queue p = [].

(** The download phase of [App.run] with [n] workers on the queue [q],
    after the threads have moved as [sched] says. *)
Definition download_phase (fetch : string -> fetched) (open_fails : string -> bool)
    (n : nat) (q : list task) (fs : gmap string content)
    (sched : list Download.tid) : Download.pool :=
  Download.run_schedule fetch open_fails sched (Download.start_workers n q fs).

(** Posts that [parse_posts] drops: a subreddit that is not a key, and the
    thumbnail ['self']. *)
Definition cats_post : post :=
  {| title := "c"; subreddit := "cats"; url := "http://x.com/c.png";
     domain := "x.com"; thumbnail := "thumb"; download_path := None |}.

Definition self_post : post :=
  {| title := "s"; subreddit := "pics"; url := "http://x.com/s";
     domain := "x.com"; thumbnail := "self"; download_path := None |}.

(** ** The reply to a listing request, below [get_posts] *)

(** What the body of a reply is to lines 131-137 of [get_posts]: not JSON,
    or JSON without ['data']['after']; or ['after'] is there and the loop
    over the children raises; or a listing. *)
Inductive json_body :=
| NotListing
| ChildrenUnreadable (after : option string)
| ListingBody (after : option string) (children : list post).

Record http_reply := mkReply {
  status_code : nat;
  body : json_body
}.

(** [Response.raise_for_status] of the [requests] library, which
    [get_posts] calls: it raises for the statuses 400 to 599 and for no
    other. *)
Definition raise_for_status (status : nat) : bool :=
  Nat.leb 400 status && Nat.ltb status 600.

(** Lines 129-137 of [get_posts] on a reply. *)
Definition read_reply (r : http_reply) : listing_reply :=
  if raise_for_status (status_code r) then HttpError
  else match body r with
       | NotListing => BadJson
       | ChildrenUnreadable after => BadChildren after
       | ListingBody after children => Listing after children
       end.

(** The remote side given by its replies. *)
Definition web_of (respond : list string -> string -> http_reply)
    (albums : list string -> string -> option (list string)) : web :=
  {| listing := fun history u => read_reply (respond history u);
     album := albums |}.

(** Answers the first page with [page1], every other request with [page2]. *)
Definition two_replies (page1 page2 : http_reply) (_ : list string) (u : string)
    : http_reply :=
  if String.eqb u (json_url (current_page start)) then page1 else page2.

(** A reply with status 300 whose body is a listing. *)
Definition status_300 (_ : list string) (_ : string) : http_reply :=
  {| status_code := 300;
     body := ListingBody (Some "t3_b") [example_post "b.png" "x.com"] |}.

(** The [while] loop of [save_image] with other threads moving between
    its tests: the [i]-th test sees the [i]-th file system of [fss].  The
    result is the name the loop ends on, with the file system of its last
    test; [None] when the loop has not ended after all of [fss]. *)
Fixpoint free_name_over (fss : list (gmap string content))
    (download_path filename : string) : option (string * gmap string content) :=
  match fss with
  | [] => None
  | fs :: rest =>
      if isfile fs (file_path download_path filename)
      then free_name_over rest download_path (filename ++ "_copy")
      else Some (filename, fs)
  end.

(** No file is removed from one file system of the list to the next. *)
Fixpoint grows (fss : list (gmap string content)) : Prop :=
  match fss with
  | [] => True
  | fs :: rest => Forall (fun fs' => dom fs ⊆ dom fs') rest /\ grows rest
  end.

(** The names that workers have found free and not yet written were free
    in [fs0]. *)
Definition names_new (fs0 : gmap string content) (wk : Download.worker) : Prop :=
  match wk with
  | Download.AtRequest (_, d, _) f | Download.AtWrite (_, d, _) f _ =>
      fs0 !! file_path d f = None
  | _ => True
  end.

(** The files of [fs0] are there unchanged, and no worker is about to
    write to one of them. *)
Definition kept (fs0 : gmap string content) (p : Download.pool) : Prop :=
  fs0 ⊆ Download.files p /\ Forall (names_new fs0) (Download.threads p).

(** Two tasks for one folder whose URLs end in the same file name. *)
Definition same_name_queue : list task :=
  [("http://x.com/a.png", "C:\pics", "pics");
   ("http://y.com/a.png", "C:\pics", "pics")].

(** The first URL answers with [b1], any other with [b2]. *)
Definition two_sources (b1 b2 : content) (u : string) : fetched :=
  if String.eqb u "http://x.com/a.png" then Stream b1 true else Stream b2 true.

(** Workers 0 and 1 each take a task and end the [while] loop of
    [save_image] before either requests and writes. *)
Definition overlapping_saves : list Download.tid :=
  [Download.Worker 0; Download.Worker 0; Download.Worker 0;
   Download.Worker 1; Download.Worker 1; Download.Worker 1;
   Download.Worker 0; Download.Worker 0;
   Download.Worker 1; Download.Worker 1;
   Download.Worker 0; Download.Worker 1].

(** * Properties *)

(** ** The category map *)

Lemma subs_dict_acc (path : string) (subs : list string) (d : gmap string string) (s : string) :
  foldl (fun d s => <[s := path]> d) d subs !! s
  = if decide (s ∈ subs) then Some path else d !! s.
Proof.
  revert d. induction subs as [|x subs IH]; intros d; simpl.
  - destruct (decide (s ∈ [])) as [H|H]; [inversion H | reflexivity].
  - rewrite IH. destruct (decide (s ∈ subs)) as [Hin|Hnin].
    + rewrite decide_True by (right; exact Hin). reflexivity.
    + destruct (decide (x = s)) as [->|Hne].
      * rewrite decide_True by left. apply lookup_insert_eq.
      * rewrite decide_False.
        -- apply lookup_insert_ne. exact Hne.
        -- intros Hc. apply elem_of_cons in Hc as [Hc|Hc]; congruence.
Qed.

Lemma subs_dict_lookup (path : string) (subs : list string) (s : string) :
  subs_dict path subs !! s = if decide (s ∈ subs) then Some path else None.
Proof. unfold subs_dict. rewrite subs_dict_acc. reflexivity. Qed.

Lemma fold_file_unlisted (file : list (string * list string)) (acc : gmap string string)
    (s : string) :
  Forall (fun e => s ∉ e.2) file -> fold_file acc file !! s = acc !! s.
Proof.
  revert acc. induction file as [|[path subs] file IH]; intros acc Hall; simpl.
  - reflexivity.
  - inversion Hall as [|? ? Hhd Htl]; subst. simpl in Hhd.
    unfold fold_file in IH. rewrite IH by exact Htl.
    unfold dict_update. rewrite lookup_union_r; [reflexivity|].
    rewrite subs_dict_lookup. rewrite decide_False by exact Hhd. reflexivity.
Qed.

(** A name that no folder lists is not a key of the map. *)
Lemma get_subreddits_unlisted (file : list (string * list string)) (s : string) :
  Forall (fun e => s ∉ e.2) file -> get_subreddits file !! s = None.
Proof.
  intros H. change (get_subreddits file) with (fold_file ∅ file).
  rewrite fold_file_unlisted by exact H. apply lookup_empty.
Qed.

(** C10. The map that [get_subreddits] builds sends a subreddit to the
    folder of the last entry of the file that lists it: when [s] is listed
    under [path] and under no later folder, it resolves to [path], whatever
    earlier folders listed it too.  (Being a map, it gives [s] no second
    destination.) *)
Theorem get_subreddits_last_wins
    (pre post : list (string * list string)) (path : string)
    (subs : list string) (s : string) :
  s ∈ subs ->
  Forall (fun e => s ∉ e.2) post ->
  get_subreddits (pre ++ (path, subs) :: post) !! s = Some path.
Proof.
  intros Hin Hpost. unfold get_subreddits. rewrite foldl_app. simpl.
  match goal with |- foldl ?f ?acc post !! s = _ =>
    change (foldl f acc post) with (fold_file acc post) end.
  rewrite fold_file_unlisted by exact Hpost.
  unfold dict_update. apply lookup_union_Some_l.
  rewrite subs_dict_lookup. rewrite decide_True by exact Hin. reflexivity.
Qed.

Lemma get_subreddits_last_wins_witness :
  get_subreddits [("C:\a", ["pics"; "aww"]); ("C:\b", ["pics"]); ("C:\c", ["cats"])]
    !! "pics" = Some "C:\b".
Proof.
  apply (get_subreddits_last_wins [("C:\a", ["pics"; "aww"])] [("C:\c", ["cats"])]
           "C:\b" ["pics"] "pics").
  - left.
  - repeat constructor. simpl. intros H.
    apply list_elem_of_singleton in H. discriminate H.
Defined.

(** ** The post filter *)

Lemma parse_posts_omap (posts : list post) (subreddits : gmap string string) :
  parse_posts posts subreddits = omap (keep subreddits) posts.
Proof.
  induction posts as [|p rest IH]; simpl; [reflexivity|].
  unfold keep. destruct (subreddits !! subreddit p); [|exact IH].
  destruct (negb _); simpl; rewrite IH; reflexivity.
Qed.

Lemma parse_posts_app (l1 l2 : list post) (subreddits : gmap string string) :
  parse_posts (l1 ++ l2) subreddits
  = (parse_posts l1 subreddits ++ parse_posts l2 subreddits)%list.
Proof. rewrite !parse_posts_omap. apply omap_app. Qed.

Lemma keep_Some (subreddits : gmap string string) (p q : post) :
  keep subreddits p = Some q <->
  exists d, subreddits !! subreddit p = Some d /\ thumbnail p <> "self"
            /\ q = set_download_path p d.
Proof.
  unfold keep. split.
  - destruct (subreddits !! subreddit p) as [d|]; [|discriminate].
    destruct (String.eqb_spec (thumbnail p) "self") as [Heq|Hne]; simpl;
      [discriminate|].
    intros [= <-]. exists d. auto.
  - intros (d & -> & Hne & ->).
    destruct (String.eqb_spec (thumbnail p) "self"); [contradiction|reflexivity].
Qed.

(** C6. The posts that [parse_posts] returns are exactly the posts whose
    subreddit is a key of the map and whose thumbnail is not ["self"], each
    with [download_path] set to the map's value for its subreddit and its
    other fields as they were; a post whose subreddit is not a key, or
    whose thumbnail is ["self"], yields nothing. *)
Theorem parse_posts_spec (posts : list post) (subreddits : gmap string string) (q : post) :
  q ∈ parse_posts posts subreddits <->
  exists p d, p ∈ posts /\ subreddits !! subreddit p = Some d
              /\ thumbnail p <> "self" /\ q = set_download_path p d
              /\ download_path q = Some d
              /\ listed_fields q = listed_fields p.
Proof.
  rewrite parse_posts_omap, list_elem_of_omap. split.
  - intros (p & Hp & Hk). apply keep_Some in Hk as (d & ? & ? & ->).
    exists p, d. repeat split; assumption.
  - intros (p & d & Hp & ? & ? & ? & _ & _). exists p. split; [exact Hp|].
    apply keep_Some. eauto.
Qed.

Lemma parse_posts_spec_witness :
  parse_posts [cats_post; example_post "a.png" "x.com"; self_post] pics_map
  = [set_download_path (example_post "a.png" "x.com") "C:\pics"]
  /\ exists p d,
       p ∈ [cats_post; example_post "a.png" "x.com"; self_post]
       /\ pics_map !! subreddit p = Some d
       /\ thumbnail p <> "self"
       /\ set_download_path (example_post "a.png" "x.com") "C:\pics"
          = set_download_path p d
       /\ download_path (set_download_path (example_post "a.png" "x.com") "C:\pics")
          = Some d
       /\ listed_fields (set_download_path (example_post "a.png" "x.com") "C:\pics")
          = listed_fields p.
Proof.
  assert (Heq : parse_posts [cats_post; example_post "a.png" "x.com"; self_post] pics_map
                = [set_download_path (example_post "a.png" "x.com") "C:\pics"])
    by (vm_compute; reflexivity).
  split; [exact Heq|].
  apply (proj1 (parse_posts_spec [cats_post; example_post "a.png" "x.com"; self_post]
                  pics_map (set_download_path (example_post "a.png" "x.com") "C:\pics"))).
  rewrite Heq. left.
Defined.

(** ** Saving an image *)

Lemma string_length_app (s1 s2 : string) :
  String.length (s1 ++ s2) = String.length s1 + String.length s2.
Proof. induction s1 as [|c s1 IH]; simpl; [reflexivity | rewrite IH; reflexivity]. Qed.

Lemma add_copies_length (k : nat) (s : string) :
  String.length (PyStr.add_copies k s) = String.length s + 5 * k.
Proof.
  revert s. induction k as [|k IH]; intros s; simpl.
  - lia.
  - rewrite IH, string_length_app. simpl. lia.
Qed.

Lemma add_copies_inj (s : string) (j k : nat) :
  PyStr.add_copies j s = PyStr.add_copies k s -> j = k.
Proof.
  intros H. apply (f_equal String.length) in H.
  rewrite !add_copies_length in H. lia.
Qed.

Lemma file_path_inj (d x y : string) : file_path d x = file_path d y -> x = y.
Proof.
  unfold file_path. intros H.
  apply (String.app_inj d) in H. apply (String.app_inj "\") in H. exact H.
Qed.

Lemma isfile_true (fs : gmap string content) (p : string) :
  isfile fs p = true <-> is_Some (fs !! p).
Proof. unfold isfile. apply bool_decide_eq_true. Qed.

Lemma isfile_false (fs : gmap string content) (p : string) :
  isfile fs p = false <-> fs !! p = None.
Proof.
  unfold isfile. rewrite bool_decide_eq_false, <- eq_None_not_Some. reflexivity.
Qed.

(** When the loop gives up, every name it tried is taken. *)
Lemma free_name_None (fuel : nat) (fs : gmap string content) (d f : string) :
  free_name fuel fs d f = None ->
  forall j, j < fuel -> isfile fs (file_path d (PyStr.add_copies j f)) = true.
Proof.
  revert f. induction fuel as [|fuel IH]; intros f H j Hj; [lia|].
  simpl in H. destruct (isfile fs (file_path d f)) eqn:E; [|discriminate].
  destruct j as [|j]; simpl; [exact E|].
  apply IH; [exact H | lia].
Qed.

(** When the loop ends, it ends on the first name that is not taken. *)
Lemma free_name_Some (fuel : nat) (fs : gmap string content) (d f n : string) :
  free_name fuel fs d f = Some n ->
  exists k, k < fuel /\ n = PyStr.add_copies k f
            /\ isfile fs (file_path d n) = false
            /\ forall j, j < k -> isfile fs (file_path d (PyStr.add_copies j f)) = true.
Proof.
  revert f. induction fuel as [|fuel IH]; intros f H; [discriminate|].
  simpl in H. destruct (isfile fs (file_path d f)) eqn:E.
  - apply IH in H as (k & Hk & -> & Hfree & Hbefore).
    exists (S k). repeat split; [lia | exact Hfree |].
    intros [|j] Hj; simpl; [exact E | apply Hbefore; lia].
  - injection H as <-. exists 0. repeat split; [lia | exact E |].
    intros j Hj. lia.
Qed.

(** There are no more taken names than files. *)
Lemma taken_names_bound (fs : gmap string content) (d f : string) (n : nat) :
  (forall j, j < n -> isfile fs (file_path d (PyStr.add_copies j f)) = true) ->
  n <= size fs.
Proof.
  intros Htaken.
  set (name := fun j => file_path d (PyStr.add_copies j f)).
  assert (Hnodup : NoDup (name <$> seq 0 n)).
  { apply NoDup_fmap_2_strong; [|apply NoDup_seq].
    intros i j _ _ Heq. unfold name in Heq.
    apply file_path_inj, add_copies_inj in Heq. exact Heq. }
  assert (Hsub : (list_to_set (name <$> seq 0 n) : gset string) ⊆ dom fs).
  { intros p Hp. apply elem_of_list_to_set, list_elem_of_fmap in Hp as (j & -> & Hj).
    apply elem_of_seq in Hj. apply elem_of_dom, isfile_true, Htaken. lia. }
  apply subseteq_size in Hsub.
  rewrite size_list_to_set in Hsub by exact Hnodup.
  rewrite length_fmap, length_seq, size_dom in Hsub. exact Hsub.
Qed.

(** The loop of [save_image] ends: one more test than there are files is
    enough. *)
Lemma free_name_terminates (fs : gmap string content) (d f : string) :
  is_Some (free_name (S (size fs)) fs d f).
Proof.
  destruct (free_name (S (size fs)) fs d f) as [n|] eqn:E; [eauto|].
  pose proof (taken_names_bound fs d f (S (size fs)) (free_name_None _ _ _ _ E)).
  lia.
Qed.

(** [save_image] on any file system: the name written is the first free
    one among [filename], [filename_copy], ...; nothing else changes. *)
Lemma save_image_frame (fetch : string -> fetched) (open_fails : string -> bool)
    (fs : gmap string content) (u d : string) :
  exists k,
    let path := file_path d (PyStr.add_copies k (url_filename u)) in
    (forall j, j < k ->
       isfile fs (file_path d (PyStr.add_copies j (url_filename u))) = true)
    /\ isfile fs path = false
    /\ (forall p, p <> path ->
          saved_fs (save_image fetch open_fails fs u d) !! p = fs !! p)
    /\ (forall bytes complete, fetch u = Stream bytes complete ->
          open_fails path = false ->
          saved_fs (save_image fetch open_fails fs u d) !! path = Some bytes).
Proof.
  unfold save_image.
  destruct (free_name_terminates fs d (url_filename u)) as [n E]. rewrite E.
  apply free_name_Some in E as (k & _ & -> & Hfree & Hbefore).
  exists k. simpl. repeat split; [exact Hbefore | exact Hfree | |].
  - intros p Hp. destruct (fetch u) as [|bytes complete]; [reflexivity|].
    destruct (open_fails _); [reflexivity|].
    destruct complete; simpl; apply lookup_insert_ne; congruence.
  - intros bytes complete -> ->. destruct complete; simpl; apply lookup_insert_eq.
Qed.

(** A save during which no other thread writes to the folder.  When the
    file name derived from the URL is taken in the
    destination folder, [save_image] goes through [filename_copy],
    [filename_copy_copy], ... and stops at the first name that is free (one
    exists: the loop ends); the response is written under that name, and
    every file that was there before keeps its content. *)
Theorem save_image_no_overwrite (fetch : string -> fetched) (open_fails : string -> bool)
    (fs : gmap string content) (u d : string) :
  isfile fs (file_path d (url_filename u)) = true ->
  exists k,
    let path := file_path d (PyStr.add_copies k (url_filename u)) in
    0 < k
    /\ (forall j, j < k ->
          isfile fs (file_path d (PyStr.add_copies j (url_filename u))) = true)
    /\ isfile fs path = false
    /\ (forall bytes complete, fetch u = Stream bytes complete ->
          open_fails path = false ->
          saved_fs (save_image fetch open_fails fs u d) !! path = Some bytes)
    /\ (forall p, is_Some (fs !! p) ->
          saved_fs (save_image fetch open_fails fs u d) !! p = fs !! p).
Proof.
  intros Htaken.
  destruct (save_image_frame fetch open_fails fs u d)
    as (k & Hbefore & Hfree & Hframe & Hwrite).
  exists k. simpl in *. repeat split; try assumption.
  - destruct k as [|k]; [|lia]. simpl in Hfree. congruence.
  - intros p Hp. apply Hframe. intros ->.
    apply isfile_true in Hp. congruence.
Qed.

Lemma save_image_no_overwrite_witness :
  save_image (fun _ => Stream [Byte.x01] true) (fun _ => false) foo_fs
    "http://x.com/foo.jpg" "C:\pics"
  = Saved (<["C:\pics\foo.jpg_copy" := [Byte.x01]]> foo_fs)
  /\ exists k, 0 < k /\
       forall p, is_Some (foo_fs !! p) ->
         saved_fs (save_image (fun _ => Stream [Byte.x01] true) (fun _ => false)
                     foo_fs "http://x.com/foo.jpg" "C:\pics") !! p = foo_fs !! p.
Proof.
  split; [vm_compute; reflexivity|].
  destruct (save_image_no_overwrite (fun _ => Stream [Byte.x01] true) (fun _ => false)
              foo_fs "http://x.com/foo.jpg" "C:\pics") as (k & Hk & _ & _ & _ & H).
  - vm_compute. reflexivity.
  - exists k. split; [exact Hk | exact H].
Defined.

(** ** Discovery *)

Section Discovery.
Variable w : web.
Variable fs : gmap string content.
Variable subreddits : gmap string string.

Lemma get_posts_listing (a : app) (after : option string) (children : list post) :
  listing w (gets a) (json_url (current_page a)) = Listing after children ->
  get_posts w a = Ret children (page_fetched a after).
Proof.
  intros H. unfold get_posts, bind, get_state, log_get. simpl. rewrite H.
  reflexivity.
Qed.

Lemma get_posts_raises (a : app) :
  listing_fails (listing w (gets a) (json_url (current_page a))) = true ->
  exists a', get_posts w a = Raise ListingError a'
             /\ queue a' = queue a
             /\ gets a' = (gets a ++ [json_url (current_page a)])%list.
Proof.
  intros H. unfold get_posts, bind, get_state, log_get. simpl.
  destruct (listing w (gets a) (json_url (current_page a))); try discriminate;
    eexists; (split; [reflexivity|]); simpl; auto.
Qed.

Lemma grab_links_turn (fuel : nat) (a : app) :
  grab_links w fs subreddits (S fuel) a =
  match turn w fs subreddits a with
  | Ret true a' => Ret tt a'
  | Ret false a' => grab_links w fs subreddits fuel a'
  | Raise e a' => Raise e a'
  | Unfinished a' => Unfinished a'
  end.
Proof.
  simpl. unfold turn, bind.
  destruct (get_posts w a) as [posts a1|e a1|a1]; try reflexivity.
  destruct (for_posts w fs (parse_posts posts subreddits) a1) as [[|] a2|e a2|a2];
    reflexivity.
Qed.

(** Turns that do not find an existing file only use up fuel. *)
Lemma grab_links_after_turns (n fuel : nat) (a0 a : app) :
  after_turns w fs subreddits n a0 = Some a ->
  grab_links w fs subreddits (n + fuel) a0 = grab_links w fs subreddits fuel a.
Proof.
  revert a0. induction n as [|n IH]; intros a0 H; simpl in H.
  - injection H as ->. reflexivity.
  - change (S n + fuel) with (S (n + fuel)). rewrite grab_links_turn.
    destruct (turn w fs subreddits a0) as [[|] a1|e a1|a1]; try discriminate.
    apply IH. exact H.
Qed.

Lemma put_links_queue (links : list string) (d sub : string) (a : app) :
  put_links links d sub a =
  Ret tt {| current_page := current_page a;
            queue := queue a ++ map (fun l => ("http:" ++ l, d, sub)) links;
            gets := gets a |}.
Proof.
  revert a. induction links as [|l links IH]; intros a; simpl.
  - unfold ret. rewrite app_nil_r. destruct a; reflexivity.
  - unfold bind, put. rewrite IH. simpl. rewrite <- app_assoc. reflexivity.
Qed.

(** The body of the [for] loop on a post that is expanded. *)
Lemma for_posts_album (p : post) (rest : list post) (d : string)
    (links : list string) (a : app) :
  download_path p = Some d ->
  image_exists fs (url p) d = false ->
  is_album p = true ->
  album w (gets a) (url p) = Some links ->
  for_posts w fs (p :: rest) a = for_posts w fs rest (album_queued a p d links).
Proof.
  intros Hd Hex Halb Hlinks. simpl. rewrite Hd, Hex, Halb.
  unfold bind at 1. unfold get_imgur_links, bind at 1, get_state, log_get.
  simpl. unfold bind at 1. simpl. rewrite Hlinks, put_links_queue. simpl.
  unfold bind, put. simpl. reflexivity.
Qed.

Lemma for_posts_album_raises (p : post) (rest : list post) (d : string) (a : app) :
  download_path p = Some d ->
  image_exists fs (url p) d = false ->
  is_album p = true ->
  album w (gets a) (url p) = None ->
  for_posts w fs (p :: rest) a = Raise AlbumError (get_failed a (url p)).
Proof.
  intros Hd Hex Halb Hlinks. simpl. rewrite Hd, Hex, Halb.
  unfold bind at 1. unfold get_imgur_links, bind at 1, get_state, log_get.
  simpl. unfold bind at 1. simpl. rewrite Hlinks. reflexivity.
Qed.

Lemma for_posts_existing (p : post) (rest : list post) (d : string) (a : app) :
  download_path p = Some d ->
  image_exists fs (url p) d = true ->
  for_posts w fs (p :: rest) a = Ret true a.
Proof. intros Hd Hex. simpl. rewrite Hd, Hex. reflexivity. Qed.

(** The loop over a list of posts, cut at a post it reaches. *)
Lemma for_posts_app (pre rest : list post) (a a' : app) :
  for_posts w fs pre a = Ret false a' ->
  for_posts w fs (pre ++ rest) a = for_posts w fs rest a'.
Proof.
  revert a. induction pre as [|p pre IH]; intros a H.
  - simpl in H. injection H as ->. reflexivity.
  - simpl in *. destruct (download_path p) as [d|]; [|discriminate].
    destruct (image_exists fs (url p) d); [discriminate|].
    unfold bind in *.
    destruct ((if is_album p then get_imgur_links w p d else ret tt) a)
      as [[] a1|e a1|a1]; try discriminate.
    destruct (put (url p, d, subreddit p) a1) as [[] a2|e a2|a2]; try discriminate.
    apply IH. exact H.
Qed.

Lemma get_posts_Ret (a a1 : app) (posts : list post) :
  get_posts w a = Ret posts a1 ->
  exists after, listing w (gets a) (json_url (current_page a)) = Listing after posts
                /\ a1 = page_fetched a after.
Proof.
  unfold get_posts, bind, get_state, log_get, set_current_page, raise, ret. simpl.
  destruct (listing w (gets a) (json_url (current_page a))) as [| |after|after children];
    try discriminate.
  intros [= <- <-]. exists after. auto.
Qed.

(** The [for] loop leaves through [break] only at a post whose file
    exists. *)
Lemma for_posts_break (posts : list post) (a a' : app) :
  for_posts w fs posts a = Ret true a' ->
  exists pre p suf d,
    posts = (pre ++ p :: suf)%list
    /\ for_posts w fs pre a = Ret false a'
    /\ download_path p = Some d
    /\ image_exists fs (url p) d = true.
Proof.
  revert a. induction posts as [|p posts IH]; intros a H; [discriminate|].
  simpl in H. destruct (download_path p) as [d|] eqn:Hd; [|discriminate].
  destruct (image_exists fs (url p) d) eqn:Hex.
  - injection H as <-. exists [], p, posts, d. auto.
  - unfold bind in H.
    destruct ((if is_album p then get_imgur_links w p d else ret tt) a)
      as [[] a1|e a1|a1] eqn:E1; try discriminate.
    destruct (put (url p, d, subreddit p) a1) as [[] a2|e a2|a2] eqn:E2;
      try discriminate.
    apply IH in H as (pre & p' & suf & d' & -> & Hpre & Hd' & Hex').
    exists (p :: pre), p', suf, d'. repeat split; try assumption.
    simpl. rewrite Hd, Hex. unfold bind. rewrite E1, E2. exact Hpre.
Qed.

Lemma after_turns_app (n k : nat) (a0 a : app) :
  after_turns w fs subreddits n a0 = Some a ->
  after_turns w fs subreddits (n + k) a0 = after_turns w fs subreddits k a.
Proof.
  revert a0. induction n as [|n IH]; intros a0 H; simpl in H.
  - injection H as ->. reflexivity.
  - simpl. destruct (turn w fs subreddits a0) as [[|] a1|e a1|a1]; try discriminate.
    apply IH. exact H.
Qed.

(** [grab_links] returns only at a post whose file exists. *)
Lemma grab_links_returns_at_existing (fuel : nat) (a0 a' : app) :
  grab_links w fs subreddits fuel a0 = Ret tt a' ->
  exists m a1 after children pre p suf d,
    after_turns w fs subreddits m a0 = Some a1
    /\ listing w (gets a1) (json_url (current_page a1)) = Listing after children
    /\ parse_posts children subreddits = (pre ++ p :: suf)%list
    /\ for_posts w fs pre (page_fetched a1 after) = Ret false a'
    /\ download_path p = Some d
    /\ image_exists fs (url p) d = true.
Proof.
  revert a0. induction fuel as [|fuel IH]; intros a0 H; [discriminate|].
  rewrite grab_links_turn in H.
  destruct (turn w fs subreddits a0) as [[|] a2|e a2|a2] eqn:Eturn; try discriminate.
  - injection H as <-. unfold turn, bind in Eturn.
    destruct (get_posts w a0) as [posts a1|e a1|a1] eqn:Eget; try discriminate.
    apply get_posts_Ret in Eget as (after & Hpage & ->).
    apply for_posts_break in Eturn as (pre & p & suf & d & Hposts & Hpre & Hd & Hex).
    exists 0, a0, after, posts, pre, p, suf, d. auto 7.
  - apply IH in H as (m & a1 & after & children & pre & p & suf & d & Hm & Hrest).
    exists (S m), a1, after, children, pre, p, suf, d. split; [|exact Hrest].
    simpl. rewrite Eturn. exact Hm.
Qed.

End Discovery.

(** *** The log of GETs only grows *)

Section GetsGrow.
Variable w : web.
Variable fs : gmap string content.
Variable subreddits : gmap string string.

Lemma get_posts_gets (a : app) :
  gets (final_state (get_posts w a)) = (gets a ++ [json_url (current_page a)])%list.
Proof.
  unfold get_posts, bind, get_state, log_get. simpl.
  destruct (listing w (gets a) (json_url (current_page a))); reflexivity.
Qed.

Lemma get_imgur_links_gets (p : post) (d : string) (a : app) :
  gets a `prefix_of` gets (final_state (get_imgur_links w p d a)).
Proof.
  unfold get_imgur_links, bind, get_state, log_get. simpl.
  destruct (album w (gets a) (url p)) as [links|]; simpl.
  - rewrite put_links_queue. simpl. apply prefix_app_r. reflexivity.
  - apply prefix_app_r. reflexivity.
Qed.

Lemma for_posts_gets (posts : list post) (a : app) :
  gets a `prefix_of` gets (final_state (for_posts w fs posts a)).
Proof.
  revert a. induction posts as [|p posts IH]; intros a; simpl; [reflexivity|].
  destruct (download_path p) as [d|]; [|reflexivity].
  destruct (image_exists fs (url p) d); [reflexivity|].
  unfold bind.
  assert (Hstep : gets a `prefix_of`
            gets (final_state ((if is_album p then get_imgur_links w p d else ret tt) a))).
  { destruct (is_album p); [apply get_imgur_links_gets | reflexivity]. }
  destruct ((if is_album p then get_imgur_links w p d else ret tt) a)
    as [[] a1|e a1|a1]; simpl in Hstep; try exact Hstep.
  simpl. etransitivity; [exact Hstep|].
  etransitivity; [|apply IH]. reflexivity.
Qed.

Lemma turn_gets (a : app) :
  (gets a ++ [json_url (current_page a)])%list
    `prefix_of` gets (final_state (turn w fs subreddits a)).
Proof.
  unfold turn, bind. pose proof (get_posts_gets a) as H1.
  destruct (get_posts w a) as [posts a1|e a1|a1]; simpl in H1.
  - rewrite <- H1. apply for_posts_gets.
  - simpl. rewrite H1. reflexivity.
  - simpl. rewrite H1. reflexivity.
Qed.

Lemma grab_links_gets (fuel : nat) (a : app) :
  gets a `prefix_of` gets (final_state (grab_links w fs subreddits fuel a)).
Proof.
  revert a. induction fuel as [|fuel IH]; intros a; [reflexivity|].
  rewrite grab_links_turn. pose proof (turn_gets a) as H.
  assert (Ha : gets a `prefix_of` (gets a ++ [json_url (current_page a)])%list)
    by (apply prefix_app_r; reflexivity).
  destruct (turn w fs subreddits a) as [[|] a1|e a1|a1]; simpl in *;
    try (etransitivity; [exact Ha | exact H]).
  etransitivity; [exact Ha|]. etransitivity; [exact H | apply IH].
Qed.

(** A turn of the loop that is run at all asks for its page. *)
Lemma grab_links_asks (fuel : nat) (a : app) :
  (gets a ++ [json_url (current_page a)])%list
    `prefix_of` gets (final_state (grab_links w fs subreddits (S fuel) a)).
Proof.
  rewrite grab_links_turn. pose proof (turn_gets a) as H.
  destruct (turn w fs subreddits a) as [[|] a1|e a1|a1]; simpl in *;
    try exact H.
  etransitivity; [exact H | apply grab_links_gets].
Qed.

End GetsGrow.

(** *** Stopping at a file that exists *)

(** C3. Whatever number of pages the loop has gone through, when the [for]
    loop of a page reaches a post whose file exists, [grab_links] returns
    with the state it had on reaching that post: the queue holds nothing
    of that post nor of the posts after it, no GET follows, and more fuel
    changes nothing. *)
Theorem grab_links_stops_at_existing
    (w : web) (fs : gmap string content) (subreddits : gmap string string)
    (n fuel : nat) (a0 a a2 : app) (after : option string)
    (children pre suf : list post) (p : post) (d : string) :
  after_turns w fs subreddits n a0 = Some a ->
  listing w (gets a) (json_url (current_page a)) = Listing after children ->
  parse_posts children subreddits = (pre ++ p :: suf)%list ->
  for_posts w fs pre (page_fetched a after) = Ret false a2 ->
  download_path p = Some d ->
  image_exists fs (url p) d = true ->
  grab_links w fs subreddits (n + S fuel) a0 = Ret tt a2.
Proof.
  intros Hturns Hpage Hposts Hpre Hd Hex.
  rewrite (grab_links_after_turns _ _ _ _ _ _ _ Hturns), grab_links_turn.
  unfold turn, bind. rewrite (get_posts_listing _ _ _ _ Hpage), Hposts.
  rewrite (for_posts_app _ _ _ _ _ _ Hpre).
  rewrite (for_posts_existing _ _ _ _ _ _ Hd Hex). reflexivity.
Qed.

Lemma grab_links_stops_at_existing_witness :
  grab_links stop_web b_saved pics_map 2 start =
  Ret tt {| current_page := "https://www.reddit.com/user/u/upvoted/?count=25&after=t3_d";
            queue := [("http://x.com/a.png", "C:\pics", "pics");
                      ("http://x.com/c.png", "C:\pics", "pics")];
            gets := ["https://www.reddit.com/user/u/upvoted/.json?/";
                     "https://www.reddit.com/user/u/upvoted/.json?/?count=25&after=t3_a"] |}.
Proof.
  eapply (grab_links_stops_at_existing stop_web b_saved pics_map 1 0 start _ _
            (Some "t3_d") _
            [set_download_path (example_post "c.png" "x.com") "C:\pics"]
            [set_download_path (example_post "d.png" "x.com") "C:\pics"]
            (set_download_path (example_post "b.png" "x.com") "C:\pics") "C:\pics").
  - vm_compute. reflexivity.
  - vm_compute. reflexivity.
  - vm_compute. reflexivity.
  - vm_compute. reflexivity.
  - reflexivity.
  - vm_compute. reflexivity.
Defined.

(** *** A listing page that fails *)

(** When the GET of a listing page fails in [get_posts] (error status,
    or a body that is not the expected JSON), at whatever page, [grab_links]
    raises at that point: the page has been asked for once, nothing is
    queued for it, and [App.run] ends with the error before any worker is
    started. *)
Theorem listing_error_aborts
    (w : web) (fetch : string -> fetched) (open_fails : string -> bool)
    (fs : gmap string content) (subreddits : gmap string string)
    (n fuel : nat) (sched : list Download.tid) (a0 a : app) :
  after_turns w fs subreddits n a0 = Some a ->
  listing_fails (listing w (gets a) (json_url (current_page a))) = true ->
  exists a',
    grab_links w fs subreddits (n + S fuel) a0 = Raise ListingError a'
    /\ App_run w fetch open_fails fs subreddits (n + S fuel) sched a0
        = Aborted ListingError a'
    /\ queue a' = queue a
    /\ gets a' = (gets a ++ [json_url (current_page a)])%list.
Proof.
  intros Hturns Herr.
  destruct (get_posts_raises w a Herr) as (a' & Hget & Hq & Hg).
  assert (H : grab_links w fs subreddits (n + S fuel) a0 = Raise ListingError a').
  { rewrite (grab_links_after_turns _ _ _ _ _ _ _ Hturns), grab_links_turn.
    unfold turn, bind. rewrite Hget. reflexivity. }
  exists a'. split; [exact H|]. split; [|split; assumption].
  unfold App_run. rewrite H. reflexivity.
Qed.

Lemma listing_error_aborts_witness :
  exists a',
    grab_links broken_web no_files pics_map 5 start = Raise ListingError a'
    /\ App_run broken_web (fun _ => FetchRaises) (fun _ => false) no_files pics_map 5
         [Download.Worker 0; Download.Main] start
        = Aborted ListingError a'
    /\ queue a' = [("http://x.com/a.png", "C:\pics", "pics")]
    /\ gets a' = ["https://www.reddit.com/user/u/upvoted/.json?/";
                  "https://www.reddit.com/user/u/upvoted/.json?/?count=25&after=t3_a"].
Proof.
  exact (listing_error_aborts broken_web (fun _ => FetchRaises) (fun _ => false)
           no_files pics_map 1 3 [Download.Worker 0; Download.Main] start
           {| current_page := "https://www.reddit.com/user/u/upvoted/?count=25&after=t3_a";
              queue := [("http://x.com/a.png", "C:\pics", "pics")];
              gets := ["https://www.reddit.com/user/u/upvoted/.json?/"] |}
           ltac:(vm_compute; reflexivity)
           ltac:(vm_compute; reflexivity)).
Defined.

(** A reply with status 300 and a listing as its body: [raise_for_status]
    does not raise, the listing is read, and discovery goes on to its
    post. *)
Lemma status_300_is_read :
  raise_for_status 300 = false
  /\ grab_links (web_of status_300 no_albums) b_saved pics_map 1 start
     = Ret tt
         {| current_page := "https://www.reddit.com/user/u/upvoted/?count=25&after=t3_b";
            queue := [];
            gets := ["https://www.reddit.com/user/u/upvoted/.json?/"] |}.
Proof. split; vm_compute; reflexivity. Qed.

(** C9 (amended). When the reply to a listing request has a status from
    400 to 599, or a body that is not the JSON that [get_posts] reads, at
    whatever page, [grab_links] raises at that point: the page has been
    asked for once, nothing is queued for it, and [App.run] ends with the
    error before any worker is started. *)
Theorem http_error_aborts
    (respond : list string -> string -> http_reply)
    (albums : list string -> string -> option (list string))
    (fetch : string -> fetched) (open_fails : string -> bool)
    (fs : gmap string content) (subreddits : gmap string string)
    (n fuel : nat) (sched : list Download.tid) (a0 a : app) :
  after_turns (web_of respond albums) fs subreddits n a0 = Some a ->
  (400 <= status_code (respond (gets a) (json_url (current_page a))) < 600
   \/ body (respond (gets a) (json_url (current_page a))) = NotListing
   \/ exists after,
        body (respond (gets a) (json_url (current_page a))) = ChildrenUnreadable after) ->
  exists a',
    grab_links (web_of respond albums) fs subreddits (n + S fuel) a0
      = Raise ListingError a'
    /\ App_run (web_of respond albums) fetch open_fails fs subreddits (n + S fuel) sched a0
        = Aborted ListingError a'
    /\ queue a' = queue a
    /\ gets a' = (gets a ++ [json_url (current_page a)])%list.
Proof.
  intros Hturns Hbad.
  apply (listing_error_aborts (web_of respond albums) fetch open_fails fs subreddits
           n fuel sched a0 a Hturns).
  simpl. unfold read_reply, raise_for_status.
  destruct Hbad as [[Hlo Hhi]|[Hbody|[after Hbody]]].
  - apply Nat.leb_le in Hlo. apply Nat.ltb_lt in Hhi. rewrite Hlo, Hhi. reflexivity.
  - rewrite Hbody. destruct (_ && _); reflexivity.
  - rewrite Hbody. destruct (_ && _); reflexivity.
Qed.

Lemma http_error_aborts_witness :
  exists a',
    grab_links
      (web_of (two_replies
                 {| status_code := 200;
                    body := ListingBody (Some "t3_a") [example_post "a.png" "x.com"] |}
                 {| status_code := 503; body := NotListing |}) no_albums)
      no_files pics_map 5 start = Raise ListingError a'
    /\ App_run
         (web_of (two_replies
                    {| status_code := 200;
                       body := ListingBody (Some "t3_a") [example_post "a.png" "x.com"] |}
                    {| status_code := 503; body := NotListing |}) no_albums)
         (fun _ => FetchRaises) (fun _ => false) no_files pics_map 5
         [Download.Worker 0; Download.Main] start
        = Aborted ListingError a'
    /\ queue a' = [("http://x.com/a.png", "C:\pics", "pics")]
    /\ gets a' = ["https://www.reddit.com/user/u/upvoted/.json?/";
                  "https://www.reddit.com/user/u/upvoted/.json?/?count=25&after=t3_a"].
Proof.
  exact (http_error_aborts
           (two_replies
              {| status_code := 200;
                 body := ListingBody (Some "t3_a") [example_post "a.png" "x.com"] |}
              {| status_code := 503; body := NotListing |}) no_albums
           (fun _ => FetchRaises) (fun _ => false)
           no_files pics_map 1 3 [Download.Worker 0; Download.Main] start
           {| current_page := "https://www.reddit.com/user/u/upvoted/?count=25&after=t3_a";
              queue := [("http://x.com/a.png", "C:\pics", "pics")];
              gets := ["https://www.reddit.com/user/u/upvoted/.json?/"] |}
           ltac:(vm_compute; reflexivity)
           ltac:(left; vm_compute; split; lia)).
Defined.

(** *** Albums *)

(** An album page with two image links: three tasks are queued, the third
    one for the URL of the album itself. *)
Lemma album_url_is_queued_too :
  grab_links album_web b_saved pics_map 1 start =
  Ret tt {| current_page := "https://www.reddit.com/user/u/upvoted/?count=25&after=t3_b";
            queue := [("http://i.imgur.com/1.jpg", "C:\pics", "pics");
                      ("http://i.imgur.com/2.jpg", "C:\pics", "pics");
                      ("http://imgur.com/a/xyz", "C:\pics", "pics")];
            gets := ["https://www.reddit.com/user/u/upvoted/.json?/";
                     "http://imgur.com/a/xyz"] |}
  /\ is_album (example_post "a/xyz" "imgur.com") = true
  /\ In ("http://imgur.com/a/xyz", "C:\pics", "pics")
        (queue (final_state (grab_links album_web b_saved pics_map 1 start)))
  /\ length (queue (final_state (grab_links album_web b_saved pics_map 1 start))) <> 2.
Proof.
  split; [vm_compute; reflexivity|].
  split; [vm_compute; reflexivity|].
  split; [vm_compute; auto | vm_compute; discriminate].
Qed.

(** A direct link to an imgur image that is neither [.jpeg] nor [.png]
    goes through [get_imgur_links] as well; the [put] after the [if] is
    what queues it. *)
Lemma imgur_jpg_is_expanded :
  is_album (example_post "x.jpg" "i.imgur.com") = true.
Proof. reflexivity. Qed.

(** C4 (amended). For a post of the filtered list whose file does not
    exist, whose domain contains ["imgur"] and whose URL contains neither
    [".jpeg"] nor [".png"], and whose album page has the links [links], the
    loop queues one task ["http:" + link] per link, in order, and then one
    more task for the URL of the post itself: [length links + 1] tasks. *)
Theorem album_post_queues_links_and_url
    (w : web) (fs : gmap string content) (p : post) (rest : list post)
    (d : string) (links : list string) (a : app) :
  download_path p = Some d ->
  image_exists fs (url p) d = false ->
  PyStr.contains "imgur" (domain p) = true ->
  PyStr.contains ".jpeg" (url p) = false ->
  PyStr.contains ".png" (url p) = false ->
  album w (gets a) (url p) = Some links ->
  for_posts w fs (p :: rest) a = for_posts w fs rest (album_queued a p d links)
  /\ queue (album_queued a p d links)
     = (queue a ++ map (fun l => (("http:" ++ l)%string, d, subreddit p)) links
          ++ [(url p, d, subreddit p)])%list
  /\ length (queue (album_queued a p d links))
     = length (queue a) + length links + 1.
Proof.
  intros Hd Hex Himgur Hjpeg Hpng Hlinks. split; [|split].
  - apply for_posts_album; try assumption.
    unfold is_album. rewrite Himgur, Hjpeg, Hpng. reflexivity.
  - simpl. rewrite <- app_assoc. reflexivity.
  - simpl. rewrite !length_app, length_map. simpl. lia.
Qed.

Lemma album_post_queues_links_and_url_witness :
  for_posts album_web b_saved
    [set_download_path (example_post "a/xyz" "imgur.com") "C:\pics"] start
  = Ret false
      {| current_page := current_page start;
         queue := [("http://i.imgur.com/1.jpg", "C:\pics", "pics");
                   ("http://i.imgur.com/2.jpg", "C:\pics", "pics");
                   ("http://imgur.com/a/xyz", "C:\pics", "pics")];
         gets := ["http://imgur.com/a/xyz"] |}.
Proof.
  apply (proj1 (album_post_queues_links_and_url album_web b_saved
                  (set_download_path (example_post "a/xyz" "imgur.com") "C:\pics")
                  [] "C:\pics" ["//i.imgur.com/1.jpg"; "//i.imgur.com/2.jpg"] start
                  eq_refl
                  ltac:(vm_compute; reflexivity)
                  ltac:(vm_compute; reflexivity)
                  ltac:(vm_compute; reflexivity)
                  ltac:(vm_compute; reflexivity)
                  eq_refl)).
Defined.




(** *** An empty page *)

(** A history with no post at all: after the first, empty page the loop
    asks for two more pages and has still not ended. *)
Lemma empty_page_does_not_stop :
  grab_links exhausted_web no_files pics_map 3 start =
  Unfinished
    {| current_page := "https://www.reddit.com/user/u/upvoted/?count=25&after=None";
       queue := [];
       gets := ["https://www.reddit.com/user/u/upvoted/.json?/";
                "https://www.reddit.com/user/u/upvoted/.json?/?count=25&after=None";
                "https://www.reddit.com/user/u/upvoted/.json?/?count=25&after=None"] |}.
Proof. vm_compute. reflexivity. Qed.

(** On that history the loop never ends, however many turns it is given. *)
Lemma exhausted_history_loops (fs : gmap string content)
    (subreddits : gmap string string) (fuel : nat) (a : app) :
  exists a', grab_links exhausted_web fs subreddits fuel a = Unfinished a'.
Proof.
  revert a. induction fuel as [|fuel IH]; intros a.
  - exists a. reflexivity.
  - rewrite grab_links_turn. unfold turn, bind.
    rewrite (get_posts_listing exhausted_web a None []) by reflexivity.
    simpl. apply IH.
Qed.

(** C8 (amended). A page with no posts does not end the loop: nothing is
    queued for it, [current_page] moves to the link built from the page's
    ['after'] field, and the loop goes on to ask for that next page.
    Discovery ends only by an error or, when [grab_links] returns, at a
    post of a later page whose file exists. *)
Theorem empty_page_continues
    (w : web) (fs : gmap string content) (subreddits : gmap string string)
    (n fuel : nat) (a0 a : app) (after : option string) :
  after_turns w fs subreddits n a0 = Some a ->
  listing w (gets a) (json_url (current_page a)) = Listing after [] ->
  grab_links w fs subreddits (n + S (S fuel)) a0
    = grab_links w fs subreddits (S fuel) (page_fetched a after)
  /\ queue (page_fetched a after) = queue a
  /\ (gets a ++ [json_url (current_page a);
                 json_url (get_next_page (current_page a) after)])%list
       `prefix_of`
     gets (final_state (grab_links w fs subreddits (n + S (S fuel)) a0))
  /\ (forall a',
        grab_links w fs subreddits (n + S (S fuel)) a0 = Ret tt a' ->
        exists m a1 after1 children pre p suf d,
          n < m
          /\ after_turns w fs subreddits m a0 = Some a1
          /\ listing w (gets a1) (json_url (current_page a1)) = Listing after1 children
          /\ parse_posts children subreddits = (pre ++ p :: suf)%list
          /\ for_posts w fs pre (page_fetched a1 after1) = Ret false a'
          /\ download_path p = Some d
          /\ image_exists fs (url p) d = true).
Proof.
  intros Hturns Hpage.
  assert (Hturn : turn w fs subreddits a = Ret false (page_fetched a after)).
  { unfold turn, bind. rewrite (get_posts_listing _ _ _ _ Hpage). reflexivity. }
  assert (H : grab_links w fs subreddits (n + S (S fuel)) a0
              = grab_links w fs subreddits (S fuel) (page_fetched a after)).
  { rewrite (grab_links_after_turns _ _ _ _ _ _ _ Hturns), grab_links_turn, Hturn.
    reflexivity. }
  split; [exact H|]. split; [reflexivity|]. split.
  - rewrite H.
    pose proof (grab_links_asks w fs subreddits fuel (page_fetched a after)) as Hp.
    simpl in Hp. rewrite <- app_assoc in Hp. exact Hp.
  - intros a' Hret. rewrite H in Hret.
    apply grab_links_returns_at_existing in Hret
      as (m & a1 & after1 & children & pre & p & suf & d & Hm & Hrest).
    exists (n + S m), a1, after1, children, pre, p, suf, d.
    split; [lia|]. split; [|exact Hrest].
    rewrite (after_turns_app _ _ _ _ _ _ _ Hturns). simpl. rewrite Hturn. exact Hm.
Qed.

Lemma empty_page_continues_witness :
  grab_links empty_then_known_web b_saved pics_map 2 start
  = Ret tt
      {| current_page := "https://www.reddit.com/user/u/upvoted/?count=25&after=t3_b";
         queue := [];
         gets := ["https://www.reddit.com/user/u/upvoted/.json?/";
                  "https://www.reddit.com/user/u/upvoted/.json?/?count=25&after=None"] |}
  /\ ["https://www.reddit.com/user/u/upvoted/.json?/";
      "https://www.reddit.com/user/u/upvoted/.json?/?count=25&after=None"]
       `prefix_of`
     gets (final_state (grab_links empty_then_known_web b_saved pics_map 2 start)).
Proof.
  split; [vm_compute; reflexivity|].
  exact (proj1 (proj2 (proj2 (empty_page_continues empty_then_known_web b_saved pics_map
                                0 0 start start None eq_refl
                                ltac:(vm_compute; reflexivity))))).
Defined.

(** ** The download phase *)

(** The cases of a step of a worker. *)
Ltac worker_cases Hstep Ei :=
  unfold Download.worker_step in Hstep;
  lazymatch type of Hstep with
  | context [Download.threads ?p !! ?i] =>
      destruct (Download.threads p !! i)
        as [[| |[[? ?] ?]|[[? ?] ?] ?|[[? ?] ?] ? [|? ?]|[[? ?] ?] ?| |]|] eqn:Ei;
      try discriminate Hstep
  end.

Section Pool.
Import Download.
Variable fetch : string -> fetched.
Variable open_fails : string -> bool.

(** A thread that cannot move stays where it is. *)
Lemma run_schedule_stuck (p : pool) :
  (forall t, step fetch open_fails t p = None) ->
  forall sched, run_schedule fetch open_fails sched p = p.
Proof.
  intros Hstuck sched. induction sched as [|t sched IH]; simpl; [reflexivity|].
  rewrite Hstuck. exact IH.
Qed.

Lemma run_schedule_invariant (I : pool -> Prop) :
  (forall t p p', I p -> step fetch open_fails t p = Some p' -> I p') ->
  forall sched p, I p -> I (run_schedule fetch open_fails sched p).
Proof.
  intros Hstep sched. induction sched as [|t sched IH]; intros p Hp; simpl;
    [exact Hp|].
  destruct (step fetch open_fails t p) as [p'|] eqn:E.
  - apply IH. exact (Hstep t p p' Hp E).
  - apply IH. exact Hp.
Qed.

Lemma run_schedule_app (s1 s2 : list tid) (p : pool) :
  run_schedule fetch open_fails (s1 ++ s2) p
  = run_schedule fetch open_fails s2 (run_schedule fetch open_fails s1 p).
Proof.
  revert p. induction s1 as [|t s1 IH]; intros p; simpl; [reflexivity|].
  destruct (step fetch open_fails t p); apply IH.
Qed.

(** Nothing in the download phase puts a task into the queue, so a
    worker that waits on the empty queue waits after every step. *)
Lemma waiting_step (i : nat) (t : tid) (p p' : pool) :
  waiting i p -> step fetch open_fails t p = Some p' -> waiting i p'.
Proof.
  intros [Hq Hi] Hstep. unfold waiting. destruct t as [j|]; simpl in Hstep.
  - destruct (decide (j = i)) as [->|Hne].
    + unfold worker_step in Hstep. rewrite Hi, Hq in Hstep. discriminate.
    + worker_cases Hstep Ej;
        try (rewrite Hq in Hstep; discriminate Hstep);
        try (destruct (open_fails _));
        injection Hstep as <-; simpl;
        rewrite list_lookup_insert_ne by exact Hne; auto.
  - unfold main_step in Hstep. destruct (main_pc p).
    + injection Hstep as <-. simpl. auto.
    + destruct (status_queue p) as [|[[u sub] st] rest]; [discriminate|].
      injection Hstep as <-. simpl. auto.
    + discriminate.
Qed.

Lemma waiting_forever (i : nat) (p : pool) (sched : list tid) :
  waiting i p -> waiting i (run_schedule fetch open_fails sched p).
Proof.
  apply (run_schedule_invariant (waiting i)).
  intros t q q'. apply waiting_step.
Qed.

(** All workers have exited and the main thread is inside
    [status_queue.get()] on an empty queue: no thread can move. *)
Lemma all_stuck (p : pool) :
  workers_alive p = false -> main_pc p = AtStatusGet -> status_queue p = [] ->
  forall t, step fetch open_fails t p = None.
Proof.
  intros Halive Hmain Hsq [i|]; simpl.
  - unfold worker_step. destruct (threads p !! i) as [wk|] eqn:E; [|reflexivity].
    unfold workers_alive in Halive.
    assert (Hwk : is_alive wk = false).
    { destruct (is_alive wk) eqn:Ea; [|reflexivity].
      assert (existsb is_alive (threads p) = true) as Hc.
      { apply existsb_exists. exists wk. split; [|exact Ea].
        apply list_elem_of_In. eapply list_elem_of_lookup_2. exact E. }
      congruence. }
    destruct wk; try discriminate. reflexivity.
  - unfold main_step. rewrite Hmain, Hsq. reflexivity.
Qed.

(** The steps of [save_image] and the [put] of the status, taken by a
    worker with no step of another thread in between, do what
    [save_image] does on the files as they are at the first of them. *)
Lemma save_steps_alone (i : nat) (p : pool) (u d sub : string) :
  threads p !! i = Some (AtSave (u, d, sub)) ->
  run_schedule fetch open_fails [Worker i; Worker i; Worker i; Worker i] p
  = {| queue := queue p;
       status_queue :=
         status_queue p
           ++ [(u, sub, match save_image fetch open_fails (files p) u d with
                        | Saved _ => Success
                        | SaveRaised _ => Failed
                        end)];
       threads := <[i := AtTaskDone]> (threads p);
       main_pc := main_pc p; reported := reported p;
       files := saved_fs (save_image fetch open_fails (files p) u d) |}.
Proof.
  intros Hi.
  assert (Hlt : i < length (threads p)) by (eapply lookup_lt_Some; exact Hi).
  unfold save_image.
  destruct (free_name_terminates (files p) d (url_filename u)) as [n E].
  rewrite E.
  cbn [run_schedule step]. unfold worker_step at 1. rewrite Hi, E.
  unfold worker_step at 1. cbn [threads set_thread].
  rewrite list_lookup_insert_eq by exact Hlt.
  unfold worker_step at 1. cbn [threads set_thread].
  rewrite list_lookup_insert_eq by (rewrite length_insert; exact Hlt).
  destruct (fetch u) as [|bytes complete].
  - unfold worker_step. cbn [threads set_thread].
    rewrite list_lookup_insert_eq by (rewrite !length_insert; exact Hlt).
    cbn [threads queue status_queue main_pc reported files set_thread saved_fs].
    rewrite !list_insert_insert_eq. reflexivity.
  - destruct (open_fails (file_path d n)).
    + unfold worker_step. cbn [threads set_thread].
      rewrite list_lookup_insert_eq by (rewrite !length_insert; exact Hlt).
      cbn [threads queue status_queue main_pc reported files set_thread saved_fs].
      rewrite !list_insert_insert_eq. reflexivity.
    + unfold worker_step. cbn [threads set_thread].
      rewrite list_lookup_insert_eq by (rewrite !length_insert; exact Hlt).
      cbn [threads queue status_queue main_pc reported files set_thread saved_fs].
      rewrite !list_insert_insert_eq. destruct complete; reflexivity.
Qed.

(** A worker that finds a task in the queue and is left alone until it
    has put the status. *)
Lemma task_steps_alone (i : nat) (p : pool) (u d sub : string) (rest : list task) :
  threads p !! i = Some AtEmpty ->
  queue p = (u, d, sub) :: rest ->
  run_schedule fetch open_fails
    ([Worker i; Worker i] ++ [Worker i; Worker i; Worker i; Worker i]) p
  = {| queue := rest;
       status_queue :=
         status_queue p
           ++ [(u, sub, match save_image fetch open_fails (files p) u d with
                        | Saved _ => Success
                        | SaveRaised _ => Failed
                        end)];
       threads := <[i := AtTaskDone]> (threads p);
       main_pc := main_pc p; reported := reported p;
       files := saved_fs (save_image fetch open_fails (files p) u d) |}.
Proof.
  intros Hi Hq.
  assert (Hlt : i < length (threads p)) by (eapply lookup_lt_Some; exact Hi).
  rewrite run_schedule_app.
  assert (Hget : run_schedule fetch open_fails [Worker i; Worker i] p
                 = {| queue := rest; status_queue := status_queue p;
                      threads := <[i := AtSave (u, d, sub)]> (threads p);
                      main_pc := main_pc p; reported := reported p;
                      files := files p |}).
  { cbn [run_schedule step]. unfold worker_step at 1. rewrite Hi, Hq.
    unfold worker_step at 1. cbn [threads set_thread queue].
    rewrite list_lookup_insert_eq by exact Hlt.
    cbn [threads queue status_queue main_pc reported files set_thread].
    rewrite Hq, list_insert_insert_eq. reflexivity. }
  rewrite Hget, (save_steps_alone i _ u d sub)
    by (cbn [threads]; apply list_lookup_insert_eq; exact Hlt).
  cbn [threads queue status_queue main_pc reported files].
  rewrite list_insert_insert_eq. reflexivity.
Qed.

(** X20. With one worker there is no second thread to take the task between
    the test and the [get]: the worker drains the queue and exits. *)
Lemma single_worker_drains (q : list task) :
  forall (sq : list download_status) (m : main) (r : list line)
         (fs : gmap string content),
  let p := run_schedule fetch open_fails (repeat (Worker 0) (7 * length q + 1))
             {| queue := q; status_queue := sq; threads := [AtEmpty];
                main_pc := m; reported := r; files := fs |} in
  queue p = [] /\ threads p = [Exited]
  /\ length (status_queue p) = length sq + length q.
Proof.
  induction q as [|[[u d] sub] q IH]; intros sq m r fs.
  - simpl. auto.
  - change (length ((u, d, sub) :: q)) with (S (length q)).
    replace (repeat (Worker 0) (7 * S (length q) + 1))
      with (([Worker 0; Worker 0] ++ [Worker 0; Worker 0; Worker 0; Worker 0])
              ++ Worker 0 :: repeat (Worker 0) (7 * length q + 1))%list
      by (replace (7 * S (length q) + 1)
            with (S (S (S (S (S (S (S (7 * length q + 1)))))))) by lia;
          reflexivity).
    rewrite run_schedule_app.
    rewrite (task_steps_alone 0 _ u d sub q) by reflexivity.
    cbn -[save_image saved_fs Nat.mul Nat.add].
    unfold set_thread. cbn -[save_image saved_fs Nat.mul Nat.add].
    match goal with |- context [run_schedule _ _ _ ?p0] =>
      match p0 with
      | {| status_queue := ?sq'; files := ?fs' |} =>
          destruct (IH sq' m r fs') as (H1 & H2 & H3)
      end
    end.
    split; [exact H1|]. split; [exact H2|].
    rewrite H3, length_app. simpl. lia.
Qed.

End Pool.

(** C1. One task in the queue and the [NUM_WORKERS] workers of the program:
    workers 0 and 1 both find the queue not empty, worker 0 takes the task,
    and worker 1 enters [queue.get()] on a queue that is now empty.
    Discovery is over, nothing puts a task any more: under every further
    schedule the queue stays empty and worker 1 stays in [get], it never
    leaves its loop. *)
Theorem worker_blocks_on_empty_queue
    (fetch : string -> fetched) (open_fails : string -> bool)
    (fs : gmap string content) (t : task) :
  let p := Download.run_schedule fetch open_fails
             [Download.Worker 0; Download.Worker 1;
              Download.Worker 0; Download.Worker 1]
             (Download.start_workers NUM_WORKERS [t] fs) in
  Download.threads p
    = [Download.AtSave t; Download.AtGet; Download.AtEmpty; Download.AtEmpty]
  /\ forall sched,
       Download.queue (Download.run_schedule fetch open_fails sched p) = []
       /\ Download.threads (Download.run_schedule fetch open_fails sched p) !! 1
          = Some Download.AtGet.
Proof.
  cbn -[save_image saved_fs]. split; [reflexivity|].
  intros sched. apply waiting_forever. split; reflexivity.
Qed.

(** C2. One task and the [NUM_WORKERS] workers of the program.
    (a) When the workers have all exited before the main thread first tests
    [workers_alive], the main thread leaves its loop at once: nothing is
    reported and the one result stays in the status queue.
    (b) When the main thread, having reported the result, tests
    [workers_alive] before the last worker has returned, it enters
    [status_queue.get()] again; the workers then exit, no thread can move,
    and the main thread never reaches ['Done'].
    Worker 0 takes six steps from the test of the queue to the [put] of the
    status (test, [get], the name, the request, the write, the [put]) and
    two more to return ([task_done], the test of the queue). *)
Theorem aggregator_misses_or_hangs
    (fetch : string -> fetched) (open_fails : string -> bool)
    (fs : gmap string content) (t : task) :
  (let p := Download.run_schedule fetch open_fails
              [Download.Worker 0; Download.Worker 0; Download.Worker 0;
               Download.Worker 0; Download.Worker 0; Download.Worker 0;
               Download.Worker 0; Download.Worker 0; Download.Worker 1;
               Download.Worker 2; Download.Worker 3; Download.Main]
              (Download.start_workers NUM_WORKERS [t] fs) in
   Download.main_pc p = Download.Done
   /\ Download.reported p = []
   /\ length (Download.status_queue p) = 1)
  /\
  (let p := Download.run_schedule fetch open_fails
              [Download.Worker 0; Download.Worker 0; Download.Worker 0;
               Download.Worker 0; Download.Worker 0; Download.Worker 0;
               Download.Worker 1; Download.Worker 2; Download.Worker 3;
               Download.Main; Download.Main; Download.Main;
               Download.Worker 0; Download.Worker 0; Download.Main]
              (Download.start_workers NUM_WORKERS [t] fs) in
   length (Download.reported p) = 1
   /\ Download.workers_alive p = false
   /\ Download.status_queue p = []
   /\ Download.main_pc p = Download.AtStatusGet
   /\ forall sched, Download.run_schedule fetch open_fails sched p = p).
Proof.
  destruct t as [[u d] sub].
  assert (Hsave : forall rest,
    Download.run_schedule fetch open_fails
      (([Download.Worker 0; Download.Worker 0]
          ++ [Download.Worker 0; Download.Worker 0; Download.Worker 0; Download.Worker 0])
         ++ rest)
      (Download.start_workers NUM_WORKERS [(u, d, sub)] fs)
    = Download.run_schedule fetch open_fails rest
        {| Download.queue := [];
           Download.status_queue :=
             [(u, sub, match save_image fetch open_fails fs u d with
                       | Saved _ => Success
                       | SaveRaised _ => Failed
                       end)];
           Download.threads := [Download.AtTaskDone; Download.AtEmpty;
                                Download.AtEmpty; Download.AtEmpty];
           Download.main_pc := Download.AtAlive;
           Download.reported := [];
           Download.files := saved_fs (save_image fetch open_fails fs u d) |}).
  { intros rest. rewrite run_schedule_app.
    rewrite (task_steps_alone fetch open_fails 0 _ u d sub []) by reflexivity.
    reflexivity. }
  split.
  - match goal with |- context [Download.run_schedule _ _ ?s _] =>
      change s with (([Download.Worker 0; Download.Worker 0]
        ++ [Download.Worker 0; Download.Worker 0; Download.Worker 0; Download.Worker 0])
        ++ [Download.Worker 0; Download.Worker 0; Download.Worker 1;
            Download.Worker 2; Download.Worker 3; Download.Main])%list
    end.
    rewrite Hsave. cbn -[save_image saved_fs]. auto.
  - match goal with |- context [Download.run_schedule _ _ ?s _] =>
      change s with (([Download.Worker 0; Download.Worker 0]
        ++ [Download.Worker 0; Download.Worker 0; Download.Worker 0; Download.Worker 0])
        ++ [Download.Worker 1; Download.Worker 2; Download.Worker 3;
            Download.Main; Download.Main; Download.Main;
            Download.Worker 0; Download.Worker 0; Download.Main])%list
    end.
    rewrite Hsave. cbn -[save_image saved_fs]. repeat split.
    intros sched. apply run_schedule_stuck. apply all_stuck; reflexivity.
Qed.

(** While a worker is alive the main thread does not leave its loop: an
    empty status queue makes it wait, not stop. *)
Lemma main_stops_only_when_workers_exited (p p' : Download.pool) :
  Download.main_pc p <> Download.Done ->
  Download.main_step p = Some p' ->
  Download.main_pc p' = Download.Done ->
  Download.workers_alive p = false.
Proof.
  intros Hnot Hstep Hdone. unfold Download.main_step in Hstep.
  destruct (Download.main_pc p); [|
    destruct (Download.status_queue p) as [|[[u sub] st] rest]; [discriminate|] |
    contradiction].
  - injection Hstep as <-. simpl in Hdone.
    destruct (Download.workers_alive p); [discriminate | reflexivity].
  - injection Hstep as <-. discriminate.
Qed.

(** * Further properties *)

(** ** Splitting and joining links *)

Lemma split_not_nil (sep : ascii) (s : string) : PyStr.split sep s <> [].
Proof.
  destruct s as [|c s]; simpl; [discriminate|].
  destruct (Ascii.eqb c sep); [discriminate|].
  destruct (PyStr.split sep s); discriminate.
Qed.

Lemma split_no_sep (sep : ascii) (s : string) :
  has_char sep s = false -> PyStr.split sep s = [s].
Proof.
  induction s as [|c s IH]; simpl; [reflexivity|].
  intros H. apply orb_false_iff in H as [Hc Hs].
  rewrite Hc, (IH Hs). reflexivity.
Qed.

Lemma split_segments (sep : ascii) (s : string) :
  Forall (fun seg => has_char sep seg = false) (PyStr.split sep s).
Proof.
  induction s as [|c s IH]; simpl.
  - repeat constructor.
  - destruct (Ascii.eqb c sep) eqn:E.
    + constructor; [reflexivity | exact IH].
    + destruct (PyStr.split sep s) as [|seg segs].
      * repeat constructor. simpl. rewrite E. reflexivity.
      * inversion IH; subst. constructor; [|assumption].
        simpl. rewrite E. assumption.
Qed.

Lemma split_app_sep (sep : ascii) (s1 s2 : string) :
  PyStr.split sep (s1 ++ String sep s2)
  = (PyStr.drop_last (PyStr.split sep s1)
       ++ PyStr.last_segment (PyStr.split sep s1) :: PyStr.split sep s2)%list.
Proof.
  unfold PyStr.drop_last, PyStr.last_segment.
  induction s1 as [|c s1 IH]; simpl.
  - rewrite Ascii.eqb_refl. reflexivity.
  - destruct (Ascii.eqb c sep) eqn:E.
    + rewrite IH. pose proof (split_not_nil sep s1) as Hne.
      destruct (PyStr.split sep s1) as [|x xs]; [contradiction|]. reflexivity.
    + rewrite IH. pose proof (split_not_nil sep s1) as Hne.
      destruct (PyStr.split sep s1) as [|x xs]; [contradiction|].
      destruct xs as [|y ys]; reflexivity.
Qed.

(** [''.join(s.split(sep))] gives [s] back. *)
Lemma join_split (sep : ascii) (s : string) :
  PyStr.join (String sep EmptyString) (PyStr.split sep s) = s.
Proof.
  induction s as [|c s IH]; simpl; [reflexivity|].
  pose proof (split_not_nil sep s) as Hne.
  destruct (Ascii.eqb c sep) eqn:E.
  - apply Ascii.eqb_eq in E as ->.
    destruct (PyStr.split sep s) as [|x xs]; [contradiction|].
    simpl in *. rewrite IH. reflexivity.
  - destruct (PyStr.split sep s) as [|x xs]; [contradiction|].
    destruct xs as [|y ys]; simpl in *; rewrite <- IH; reflexivity.
Qed.

Lemma join_cons (sep x : string) (l : list string) :
  l <> [] -> PyStr.join sep (x :: l) = x ++ sep ++ PyStr.join sep l.
Proof. destruct l; [contradiction | reflexivity]. Qed.

Lemma string_app_assoc (a b c : string) : (a ++ b) ++ c = a ++ b ++ c.
Proof.
  induction a as [|x a IH]; [reflexivity|].
  change (String x ((a ++ b) ++ c) = String x (a ++ b ++ c)).
  rewrite IH. reflexivity.
Qed.

Lemma string_app_nil_r (a : string) : a ++ "" = a.
Proof.
  induction a as [|x a IH]; [reflexivity|].
  change (String x (a ++ "") = String x a). rewrite IH. reflexivity.
Qed.

Lemma join_snoc (sep x : string) (l : list string) :
  l <> [] -> PyStr.join sep (l ++ [x]) = PyStr.join sep l ++ sep ++ x.
Proof.
  induction l as [|y l IH]; [contradiction|]. intros _.
  destruct l as [|z l].
  - reflexivity.
  - change (PyStr.join sep ((y :: z :: l) ++ [x]))
      with (y ++ sep ++ PyStr.join sep ((z :: l) ++ [x])).
    rewrite IH by discriminate.
    change (PyStr.join sep (y :: z :: l)) with (y ++ sep ++ PyStr.join sep (z :: l)).
    rewrite !string_app_assoc. reflexivity.
Qed.

(** Splitting what was joined gives the segments back, when no segment
    holds the separator. *)
Lemma split_join (sep : ascii) (l : list string) :
  l <> [] ->
  Forall (fun seg => has_char sep seg = false) l ->
  PyStr.split sep (PyStr.join (String sep EmptyString) l) = l.
Proof.
  induction l as [|x l IH]; [contradiction|]. intros _ Hall.
  inversion Hall as [|? ? Hx Hl]; subst.
  destruct l as [|y l].
  - simpl. apply split_no_sep. exact Hx.
  - rewrite join_cons by discriminate.
    change (x ++ String sep "" ++ PyStr.join (String sep "") (y :: l))
      with (x ++ String sep (PyStr.join (String sep "") (y :: l))).
    rewrite split_app_sep, (split_no_sep _ _ Hx), IH by (discriminate || assumption).
    reflexivity.
Qed.

Lemma has_char_app (c : ascii) (s1 s2 : string) :
  has_char c (s1 ++ s2) = has_char c s1 || has_char c s2.
Proof.
  induction s1 as [|x s1 IH]; [reflexivity|].
  change (has_char c (String x (s1 ++ s2))
          = has_char c (String x s1) || has_char c s2).
  simpl. rewrite IH, orb_assoc. reflexivity.
Qed.

Lemma drop_last_snoc {A} (l : list A) (x : A) : PyStr.drop_last (l ++ [x]) = l.
Proof. unfold PyStr.drop_last. apply removelast_last. Qed.

Lemma drop_last_last (l : list string) :
  l <> [] -> (PyStr.drop_last l ++ [PyStr.last_segment l])%list = l.
Proof.
  intros H. unfold PyStr.drop_last, PyStr.last_segment.
  symmetry. apply app_removelast_last. exact H.
Qed.

Lemma Forall_drop_last {A} (P : A -> Prop) (l : list A) :
  Forall P l -> Forall P (PyStr.drop_last l).
Proof.
  unfold PyStr.drop_last. induction 1 as [|x l Hx Hl IH]; simpl; [constructor|].
  destruct l; [constructor|]. constructor; assumption.
Qed.

(** X1. [get_next_page] replaces the last segment of the page link, the
    part after the last ["/"], by the cursor: the part before is kept. *)
Theorem get_next_page_replaces_last (base last : string) (i : option string) :
  has_char "/" last = false ->
  get_next_page (base ++ "/" ++ last) i
  = base ++ "/?count=25&after=" ++ format_after i.
Proof.
  intros Hlast. unfold get_next_page.
  change (base ++ "/" ++ last) with (base ++ String "/" last).
  rewrite split_app_sep, (split_no_sep _ _ Hlast).
  change (PyStr.drop_last (PyStr.split "/" base)
            ++ [PyStr.last_segment (PyStr.split "/" base); last])%list
    with (PyStr.drop_last (PyStr.split "/" base)
            ++ [PyStr.last_segment (PyStr.split "/" base)] ++ [last])%list.
  rewrite app_assoc, drop_last_snoc, drop_last_last by apply split_not_nil.
  rewrite join_snoc by apply split_not_nil.
  rewrite join_split. reflexivity.
Qed.

Lemma get_next_page_replaces_last_witness :
  get_next_page ("https://www.reddit.com/user/u/upvoted" ++ "/" ++ "?count=25&after=t3_a")
    (Some "t3_b")
  = "https://www.reddit.com/user/u/upvoted" ++ "/?count=25&after=" ++ "t3_b".
Proof.
  apply (get_next_page_replaces_last "https://www.reddit.com/user/u/upvoted"
           "?count=25&after=t3_a" (Some "t3_b")).
  reflexivity.
Defined.

(** X2. The cursor does not pile up: the link built after a further page
    is the link that the first page would have given with the new cursor. *)
Theorem get_next_page_twice (page : string) (i j : option string) :
  has_char "/" (format_after i) = false ->
  get_next_page (get_next_page page i) j = get_next_page page j.
Proof.
  intros Hi. unfold get_next_page at 1 3.
  f_equal. f_equal. unfold get_next_page.
  rewrite split_join.
  - apply drop_last_snoc.
  - destruct (PyStr.drop_last (PyStr.split "/" page)); discriminate.
  - apply Forall_app. split.
    + apply Forall_drop_last, split_segments.
    + repeat constructor. rewrite has_char_app, Hi. reflexivity.
Qed.

Lemma get_next_page_twice_witness :
  get_next_page (get_next_page "https://www.reddit.com/user/u/upvoted/" (Some "t3_a")) None
  = get_next_page "https://www.reddit.com/user/u/upvoted/" None.
Proof.
  apply (get_next_page_twice "https://www.reddit.com/user/u/upvoted/" (Some "t3_a") None).
  reflexivity.
Defined.

(** X3. For a user name without ["/"], the first page is asked for at
    [https://www.reddit.com/user/<name>/upvoted/.json?/] and every page
    after it at [.../upvoted/.json?/?count=25&after=<cursor>]. *)
Theorem json_url_of_pages (username : string) (i : option string) :
  has_char "/" username = false ->
  has_char "/" (format_after i) = false ->
  json_url (current_page (initial_app username))
    = "https://www.reddit.com/user/" ++ username ++ "/upvoted/.json?/"
  /\ json_url (get_next_page (current_page (initial_app username)) i)
    = "https://www.reddit.com/user/" ++ username
        ++ "/upvoted/.json?/?count=25&after=" ++ format_after i.
Proof.
  intros Hu Hi.
  assert (Hsegs : forall lastseg, has_char "/" lastseg = false ->
            PyStr.split "/"
              ("https://www.reddit.com/user/" ++ username ++ "/upvoted/" ++ lastseg)
            = ["https:"; ""; "www.reddit.com"; "user"; username; "upvoted"; lastseg]).
  { intros lastseg Hl.
    change ("https://www.reddit.com/user/" ++ username ++ "/upvoted/" ++ lastseg)
      with (PyStr.join "/"
              ["https:"; ""; "www.reddit.com"; "user"; username; "upvoted"; lastseg]).
    apply split_join; [discriminate|].
    repeat (constructor; [first [reflexivity | assumption]|]). constructor. }
  split.
  - unfold json_url, initial_app, current_page.
    rewrite <- (string_app_nil_r "/upvoted/"), (Hsegs "" eq_refl). reflexivity.
  - assert (Hpage : current_page (initial_app username)
                    = ("https://www.reddit.com/user/" ++ username ++ "/upvoted") ++ "/" ++ "").
    { unfold initial_app, current_page. rewrite !string_app_assoc. reflexivity. }
    rewrite Hpage, get_next_page_replaces_last by reflexivity.
    unfold json_url.
    assert (Hnext : ("https://www.reddit.com/user/" ++ username ++ "/upvoted")
                      ++ "/?count=25&after=" ++ format_after i
                    = "https://www.reddit.com/user/" ++ username ++ "/upvoted/"
                        ++ ("?count=25&after=" ++ format_after i)).
    { rewrite !string_app_assoc. reflexivity. }
    rewrite Hnext, Hsegs by (rewrite has_char_app, Hi; reflexivity).
    reflexivity.
Qed.

Lemma json_url_of_pages_witness :
  json_url (current_page (initial_app "nick"))
    = "https://www.reddit.com/user/nick/upvoted/.json?/"
  /\ json_url (get_next_page (current_page (initial_app "nick")) (Some "t3_a"))
    = "https://www.reddit.com/user/nick/upvoted/.json?/?count=25&after=t3_a".
Proof.
  apply (json_url_of_pages "nick" (Some "t3_a")); reflexivity.
Defined.

(** X4. The file name taken from a URL is the part of the URL after its
    last ["/"] (the whole URL when it has none): it holds no ["/"]. *)
Theorem url_filename_is_last_part (u : string) :
  has_char "/" (url_filename u) = false
  /\ (u = url_filename u \/ exists pre, u = pre ++ "/" ++ url_filename u).
Proof.
  unfold url_filename.
  pose proof (split_not_nil "/" u) as Hne.
  pose proof (split_segments "/" u) as Hall.
  pose proof (join_split "/" u) as Hjoin.
  rewrite <- (drop_last_last _ Hne) in Hall, Hjoin.
  apply Forall_app in Hall as [_ Hlast]. inversion Hlast; subst.
  split; [assumption|].
  destruct (PyStr.drop_last (PyStr.split "/" u)) as [|x l] eqn:E.
  - left. simpl in Hjoin. congruence.
  - right. exists (PyStr.join "/" (x :: l)).
    rewrite join_snoc in Hjoin by discriminate. congruence.
Qed.

(** ** Which posts are expanded *)

Lemma prefix_spec (n h : string) :
  String.prefix n h = true <-> exists post, h = n ++ post.
Proof.
  revert h. induction n as [|a n IH]; intros h.
  - split; [intros _; exists h; reflexivity | intros _; destruct h; reflexivity].
  - destruct h as [|b h]; simpl.
    + split; [discriminate | intros [post Hp]; discriminate Hp].
    + destruct (ascii_dec a b) as [->|Hne].
      * rewrite IH. split; intros [post Hp]; exists post.
        -- change (String b h = String b (n ++ post)). rewrite Hp. reflexivity.
        -- change (String b h = String b (n ++ post)) in Hp. congruence.
      * split; [discriminate|]. intros [post Hp].
        change (String b h = String a (n ++ post)) in Hp. congruence.
Qed.

(** [needle in hay]: [hay] holds [needle] somewhere. *)
Lemma contains_spec (n h : string) :
  PyStr.contains n h = true <-> exists pre post, h = pre ++ n ++ post.
Proof.
  induction h as [|b h IH].
  - change (PyStr.contains n "") with (String.prefix n "" || false).
    rewrite orb_false_r, prefix_spec. split.
    + intros [post Hp]. exists "", post. exact Hp.
    + intros (pre & post & Hp). destruct pre as [|x pre]; [|discriminate Hp].
      exists post. exact Hp.
  - change (PyStr.contains n (String b h))
      with (String.prefix n (String b h) || PyStr.contains n h).
    rewrite orb_true_iff, prefix_spec, IH. split.
    + intros [[post Hp]|(pre & post & Hp)].
      * exists "", post. exact Hp.
      * exists (String b pre), post.
        change (String b h = String b (pre ++ n ++ post)). rewrite Hp. reflexivity.
    + intros (pre & post & Hp). destruct pre as [|x pre].
      * left. exists post. exact Hp.
      * right. exists pre, post.
        change (String b h = String x (pre ++ n ++ post)) in Hp. congruence.
Qed.

(** The test of line 238 holds exactly when the domain holds ["imgur"] and
    the URL holds neither [".jpeg"] nor [".png"], wherever in the string. *)
Lemma is_album_spec (p : post) :
  is_album p = true <->
  (exists a b, domain p = a ++ "imgur" ++ b)
  /\ ~ (exists a b, url p = a ++ ".jpeg" ++ b)
  /\ ~ (exists a b, url p = a ++ ".png" ++ b).
Proof.
  unfold is_album.
  rewrite andb_true_iff, negb_true_iff, orb_false_iff.
  rewrite <- !contains_spec.
  rewrite <- !not_true_iff_false. reflexivity.
Qed.

(** X5. In [grab_links], a post of the filtered list causes the request of
    [get_imgur_links] exactly when its file does not exist, its domain
    holds ["imgur"] and its URL holds neither [".jpeg"] nor [".png"],
    wherever in the string: then the URL of the post is asked for, whether
    or not the request succeeds, and otherwise nothing is. *)
Theorem album_request_exactly_when
    (w : web) (fs : gmap string content) (p : post) (d : string) (a : app) :
  download_path p = Some d ->
  (image_exists fs (url p) d = false
   /\ (exists x y, domain p = x ++ "imgur" ++ y)
   /\ ~ (exists x y, url p = x ++ ".jpeg" ++ y)
   /\ ~ (exists x y, url p = x ++ ".png" ++ y)
   -> gets (final_state (for_posts w fs [p] a)) = (gets a ++ [url p])%list)
  /\ (~ (image_exists fs (url p) d = false
         /\ (exists x y, domain p = x ++ "imgur" ++ y)
         /\ ~ (exists x y, url p = x ++ ".jpeg" ++ y)
         /\ ~ (exists x y, url p = x ++ ".png" ++ y))
      -> gets (final_state (for_posts w fs [p] a)) = gets a).
Proof.
  intros Hd. split.
  - intros (Hex & Halb). apply is_album_spec in Halb.
    destruct (album w (gets a) (url p)) as [links|] eqn:Hlinks.
    + rewrite (for_posts_album w fs p [] d links a Hd Hex Halb Hlinks). reflexivity.
    + rewrite (for_posts_album_raises w fs p [] d a Hd Hex Halb Hlinks). reflexivity.
  - intros Hnot. destruct (image_exists fs (url p) d) eqn:Hex.
    + rewrite (for_posts_existing w fs p [] d a Hd Hex). reflexivity.
    + destruct (is_album p) eqn:Halb.
      * contradiction Hnot. split; [reflexivity|]. apply is_album_spec. exact Halb.
      * simpl. rewrite Hd, Hex, Halb. reflexivity.
Qed.

Lemma album_request_exactly_when_witness :
  gets (final_state
          (for_posts album_down_web no_files
             [set_download_path (example_post "a/xyz" "imgur.com") "C:\pics"] start))
  = ["http://imgur.com/a/xyz"].
Proof.
  apply (proj1 (album_request_exactly_when album_down_web no_files
                  (set_download_path (example_post "a/xyz" "imgur.com") "C:\pics")
                  "C:\pics" start eq_refl)).
  split; [vm_compute; reflexivity|]. apply is_album_spec. vm_compute. reflexivity.
Defined.

(** X6. A post that is not expanded and whose file does not exist costs no
    GET and puts exactly one task in the queue, for its own URL; so it is
    for every post whose URL holds [".png"] or [".jpeg"]. *)
Theorem direct_image_one_task
    (w : web) (fs : gmap string content) (p : post) (rest : list post)
    (d : string) (a : app) :
  download_path p = Some d ->
  image_exists fs (url p) d = false ->
  (exists x y, url p = x ++ ".png" ++ y) \/ (exists x y, url p = x ++ ".jpeg" ++ y) ->
  for_posts w fs (p :: rest) a
  = for_posts w fs rest
      {| current_page := current_page a;
         queue := queue a ++ [(url p, d, subreddit p)];
         gets := gets a |}.
Proof.
  intros Hd Hex Himg.
  assert (Halb : is_album p = false).
  { apply not_true_iff_false. rewrite is_album_spec. tauto. }
  simpl. rewrite Hd, Hex, Halb. reflexivity.
Qed.

Lemma direct_image_one_task_witness :
  for_posts stop_web no_files
    [set_download_path (example_post "a.png" "i.imgur.com") "C:\pics"] start
  = Ret false
      {| current_page := current_page start;
         queue := [("http://i.imgur.com/a.png", "C:\pics", "pics")];
         gets := [] |}.
Proof.
  apply (direct_image_one_task stop_web no_files
           (set_download_path (example_post "a.png" "i.imgur.com") "C:\pics")
           [] "C:\pics" start eq_refl).
  - vm_compute. reflexivity.
  - left. exists "http://i.imgur.com/a", "". reflexivity.
Defined.

(** ** The category map, further *)

Lemma fold_file_keeps_keys (file : list (string * list string))
    (acc : gmap string string) (s : string) :
  is_Some (acc !! s) -> is_Some (fold_file acc file !! s).
Proof.
  revert acc. induction file as [|[path subs] file IH]; intros acc H; simpl;
    [exact H|].
  apply IH. unfold dict_update. destruct (decide (s ∈ subs)) as [Hs|Hs].
  - exists path. apply lookup_union_Some_l.
    rewrite subs_dict_lookup, decide_True by exact Hs. reflexivity.
  - rewrite lookup_union_r; [exact H|].
    rewrite subs_dict_lookup, decide_False by exact Hs. reflexivity.
Qed.

Lemma fold_file_sound (file : list (string * list string))
    (acc : gmap string string) (s path : string) :
  fold_file acc file !! s = Some path ->
  acc !! s = Some path \/ exists subs, (path, subs) ∈ file /\ s ∈ subs.
Proof.
  revert acc. induction file as [|[path' subs] file IH]; intros acc H; simpl in H;
    [left; exact H|].
  apply IH in H as [H|(subs' & Hin & Hs)].
  - unfold dict_update in H. destruct (decide (s ∈ subs)) as [Hs|Hs].
    + right. exists subs. split; [|exact Hs].
      rewrite (lookup_union_Some_l _ _ _ path') in H
        by (rewrite subs_dict_lookup, decide_True by exact Hs; reflexivity).
      injection H as <-. left.
    + left. rewrite lookup_union_r in H; [exact H|].
      rewrite subs_dict_lookup, decide_False by exact Hs. reflexivity.
  - right. exists subs'. split; [right; exact Hin | exact Hs].
Qed.

Lemma fold_file_listed (file : list (string * list string))
    (acc : gmap string string) (s path : string) (subs : list string) :
  (path, subs) ∈ file -> s ∈ subs -> is_Some (fold_file acc file !! s).
Proof.
  intros Hin Hs. revert acc.
  induction file as [|[path' subs'] file IH]; intros acc; [inversion Hin|].
  simpl. apply elem_of_cons in Hin as [Heq|Hin].
  - injection Heq as <- <-. apply fold_file_keeps_keys.
    unfold dict_update. eexists. apply lookup_union_Some_l.
    rewrite subs_dict_lookup, decide_True by exact Hs. reflexivity.
  - apply IH. exact Hin.
Qed.

(** X7. The keys of the map that [get_subreddits] builds are exactly the
    names that some folder lists, and the value of a key is one of the
    folders that list it. *)
Theorem get_subreddits_keys (file : list (string * list string)) (s : string) :
  (is_Some (get_subreddits file !! s)
   <-> exists path subs, (path, subs) ∈ file /\ s ∈ subs)
  /\ (forall path, get_subreddits file !! s = Some path ->
        exists subs, (path, subs) ∈ file /\ s ∈ subs).
Proof.
  assert (Hsound : forall path, get_subreddits file !! s = Some path ->
            exists subs, (path, subs) ∈ file /\ s ∈ subs).
  { intros path H. change (get_subreddits file) with (fold_file ∅ file) in H.
    apply fold_file_sound in H as [H|H]; [|exact H].
    rewrite lookup_empty in H. discriminate. }
  split; [|exact Hsound]. split.
  - intros [path H]. exists path. apply Hsound. exact H.
  - intros (path & subs & Hin & Hs).
    exact (fold_file_listed file ∅ s path subs Hin Hs).
Qed.

(** ** The post filter, further *)

Lemma keep_fields (subreddits : gmap string string) (p q : post) :
  keep subreddits p = Some q -> listed_fields q = listed_fields p.
Proof. intros H. apply keep_Some in H as (d & _ & _ & ->). reflexivity. Qed.

(** X8. [parse_posts] keeps the order of the posts and changes none of the
    fields that came with the listing: the posts it returns are, field by
    field, a sublist of the posts it was given. *)
Theorem parse_posts_sublist (posts : list post) (subreddits : gmap string string) :
  (listed_fields <$> parse_posts posts subreddits) `sublist_of` (listed_fields <$> posts).
Proof.
  rewrite parse_posts_omap.
  induction posts as [|p posts IH]; simpl; [constructor|].
  destruct (keep subreddits p) as [q|] eqn:E; simpl.
  - rewrite (keep_fields _ _ _ E). apply sublist_skip. exact IH.
  - apply sublist_cons. exact IH.
Qed.

(** X9. Filtering twice is filtering once: a post that [parse_posts] kept
    is kept again, with the same [download_path]. *)
Theorem parse_posts_idempotent (posts : list post) (subreddits : gmap string string) :
  parse_posts (parse_posts posts subreddits) subreddits = parse_posts posts subreddits.
Proof.
  induction posts as [|p posts IH]; simpl; [reflexivity|].
  destruct (subreddits !! subreddit p) as [d|] eqn:Hd; [|exact IH].
  destruct (negb (String.eqb (thumbnail p) "self")) eqn:Hself; [|exact IH].
  simpl. rewrite Hd, Hself, IH. reflexivity.
Qed.

Lemma parse_posts_routed (posts : list post) (subreddits : gmap string string) :
  Forall (routed subreddits) (parse_posts posts subreddits).
Proof.
  apply Forall_forall. intros q Hq.
  rewrite parse_posts_omap in Hq.
  apply list_elem_of_omap in Hq as (p & _ & Hk).
  apply keep_Some in Hk as (d & Hd & _ & ->). exists d. simpl. auto.
Qed.

(** ** Discovery, further *)

(** What one turn of the [for] loop of [grab_links] can do. *)
Lemma for_posts_cases (w : web) (fs : gmap string content)
    (p : post) (rest : list post) (a : app) :
  (download_path p = None /\ for_posts w fs (p :: rest) a = Raise KeyError a)
  \/ (exists d, download_path p = Some d /\ image_exists fs (url p) d = true
                /\ for_posts w fs (p :: rest) a = Ret true a)
  \/ (exists d, download_path p = Some d /\ image_exists fs (url p) d = false
                /\ for_posts w fs (p :: rest) a
                   = Raise AlbumError (get_failed a (url p)))
  \/ (exists d a1 new,
        download_path p = Some d /\ image_exists fs (url p) d = false
        /\ for_posts w fs (p :: rest) a = for_posts w fs rest a1
        /\ queue a1 = (queue a ++ new)%list
        /\ Forall (fun t => exists u, t = (u, d, subreddit p)) new).
Proof.
  destruct (download_path p) as [d|] eqn:Hd.
  2:{ left. split; [reflexivity|]. simpl. rewrite Hd. reflexivity. }
  destruct (image_exists fs (url p) d) eqn:Hex.
  { right. left. exists d. split; [reflexivity|]. split; [exact Hex|].
    exact (for_posts_existing w fs p rest d a Hd Hex). }
  destruct (is_album p) eqn:Halb.
  - destruct (album w (gets a) (url p)) as [links|] eqn:Hlinks.
    + right. right. right.
      exists d, (album_queued a p d links),
        (map (fun l => (("http:" ++ l)%string, d, subreddit p)) links
           ++ [(url p, d, subreddit p)])%list.
      split; [reflexivity|]. split; [exact Hex|].
      split; [exact (for_posts_album w fs p rest d links a Hd Hex Halb Hlinks)|]. split.
      * simpl. rewrite <- app_assoc. reflexivity.
      * apply Forall_app. split.
        -- apply Forall_forall. intros t Ht.
           apply list_elem_of_fmap in Ht as (l & -> & _). eauto.
        -- repeat constructor. eauto.
    + right. right. left. exists d. split; [reflexivity|]. split; [exact Hex|].
      exact (for_posts_album_raises w fs p rest d a Hd Hex Halb Hlinks).
  - right. right. right.
    exists d, {| current_page := current_page a;
                 queue := queue a ++ [(url p, d, subreddit p)];
                 gets := gets a |}, [(url p, d, subreddit p)].
    split; [reflexivity|]. split; [exact Hex|]. split; [|split].
    + simpl. rewrite Hd, Hex, Halb. reflexivity.
    + reflexivity.
    + repeat constructor. eauto.
Qed.

(** X10. [grab_links] never fails on a missing ['download_path']: every
    post that reaches the [for] loop has been given one by [parse_posts]. *)
Theorem grab_links_no_key_error
    (w : web) (fs : gmap string content) (subreddits : gmap string string)
    (fuel : nat) (a a' : app) :
  grab_links w fs subreddits fuel a <> Raise KeyError a'.
Proof.
  assert (Hfor : forall posts b b', Forall (routed subreddits) posts ->
            for_posts w fs posts b <> Raise KeyError b').
  { induction posts as [|p posts IH]; intros b b' Hall; [discriminate|].
    inversion Hall as [|? ? (d0 & Hd0 & _) Hrest]; subst.
    destruct (for_posts_cases w fs p posts b)
      as [[Hn _]|[(d & _ & _ & ->)|[(d & _ & _ & ->)|(d & a1 & new & _ & _ & -> & _)]]];
      try discriminate.
    - congruence.
    - apply IH. exact Hrest. }
  revert a. induction fuel as [|fuel IH]; intros a; [discriminate|].
  rewrite grab_links_turn. unfold turn, bind.
  destruct (get_posts w a) as [posts a1|e a1|a1] eqn:Eget.
  - specialize (Hfor (parse_posts posts subreddits) a1 a'
                  (parse_posts_routed posts subreddits)).
    destruct (for_posts w fs (parse_posts posts subreddits) a1) as [[|] a2|e a2|a2];
      try discriminate; [apply IH | congruence].
  - unfold get_posts, bind, get_state, log_get, set_current_page, raise in Eget.
    simpl in Eget.
    destruct (listing w (gets a) (json_url (current_page a)));
      try discriminate; injection Eget as <- <-; discriminate.
  - discriminate.
Qed.

(** X11. Discovery only appends to the queue, and every task it appends
    goes to the folder that the map gives for the task's subreddit. *)
Theorem grab_links_queue_configured
    (w : web) (fs : gmap string content) (subreddits : gmap string string)
    (fuel : nat) (a : app) :
  exists new,
    queue (final_state (grab_links w fs subreddits fuel a)) = (queue a ++ new)%list
    /\ Forall (configured subreddits) new.
Proof.
  assert (Hfor : forall posts b, Forall (routed subreddits) posts ->
            exists new, queue (final_state (for_posts w fs posts b)) = (queue b ++ new)%list
                        /\ Forall (configured subreddits) new).
  { induction posts as [|p posts IH]; intros b Hall.
    { exists []. simpl. rewrite app_nil_r. auto. }
    inversion Hall as [|? ? (d0 & Hd0 & Hsub) Hrest]; subst.
    destruct (for_posts_cases w fs p posts b)
      as [[_ ->]|[(d & _ & _ & ->)|[(d & _ & _ & ->)|(d & a1 & new & Hd & _ & -> & Hq & Hnew)]]];
      try (exists []; simpl; rewrite app_nil_r; auto; fail).
    destruct (IH a1 Hrest) as (new' & Hq' & Hnew').
    exists (new ++ new')%list. split.
    - rewrite Hq', Hq, app_assoc. reflexivity.
    - apply Forall_app. split; [|exact Hnew'].
      eapply Forall_impl; [exact Hnew|]. intros t [u ->]. simpl. congruence. }
  revert a. induction fuel as [|fuel IH]; intros a.
  { exists []. simpl. rewrite app_nil_r. auto. }
  rewrite grab_links_turn. unfold turn, bind.
  assert (Hget : queue (final_state (get_posts w a)) = queue a).
  { unfold get_posts, bind, get_state, log_get. simpl.
    destruct (listing w (gets a) (json_url (current_page a))); reflexivity. }
  destruct (get_posts w a) as [posts a1|e a1|a1]; simpl in Hget;
    try (exists []; simpl; rewrite app_nil_r; auto; fail).
  destruct (Hfor (parse_posts posts subreddits) a1 (parse_posts_routed posts subreddits))
    as (new & Hq & Hnew).
  rewrite Hget in Hq.
  destruct (for_posts w fs (parse_posts posts subreddits) a1) as [[|] a2|e a2|a2];
    simpl in Hq; try (exists new; auto; fail).
  destruct (IH a2) as (new' & Hq' & Hnew').
  exists (new ++ new')%list. split.
  - rewrite Hq', Hq, app_assoc. reflexivity.
  - apply Forall_app. auto.
Qed.

(** X12. [grab_links] returns only through a file that exists: when no
    file exists for any post, as on a first run into empty folders, it
    never returns, whatever the pages hold; it can only raise or go on. *)
Theorem grab_links_needs_existing_file
    (w : web) (fs : gmap string content) (subreddits : gmap string string)
    (fuel : nat) (a a' : app) :
  (forall u d, image_exists fs u d = false) ->
  grab_links w fs subreddits fuel a <> Ret tt a'.
Proof.
  intros Hnone.
  assert (Hfor : forall posts b b', for_posts w fs posts b <> Ret true b').
  { induction posts as [|p posts IH]; intros b b'; [discriminate|].
    destruct (for_posts_cases w fs p posts b)
      as [[_ ->]|[(d & _ & Hex & _)|[(d & _ & _ & ->)|(d & a1 & new & _ & _ & -> & _)]]];
      try discriminate.
    - rewrite Hnone in Hex. discriminate.
    - apply IH. }
  revert a. induction fuel as [|fuel IH]; intros a; [discriminate|].
  rewrite grab_links_turn. unfold turn, bind.
  destruct (get_posts w a) as [posts a1|e a1|a1]; try discriminate.
  specialize (Hfor (parse_posts posts subreddits) a1).
  destruct (for_posts w fs (parse_posts posts subreddits) a1) as [[|] a2|e a2|a2];
    try discriminate; [|apply IH].
  intros _. exact (Hfor a2 eq_refl).
Qed.

Lemma grab_links_needs_existing_file_witness :
  grab_links stop_web no_files pics_map 4 start
  <> Ret tt (final_state (grab_links stop_web no_files pics_map 4 start)).
Proof.
  apply (grab_links_needs_existing_file stop_web no_files pics_map 4 start).
  intros u d. reflexivity.
Defined.

(** ** Saving an image, further *)

(** What a save that did not raise has done. *)
Lemma save_image_Saved (fetch : string -> fetched) (open_fails : string -> bool)
    (fs fs' : gmap string content) (u d : string) :
  save_image fetch open_fails fs u d = Saved fs' ->
  exists k bytes,
    let path := file_path d (PyStr.add_copies k (url_filename u)) in
    fetch u = Stream bytes true
    /\ fs !! path = None
    /\ fs' = <[path := bytes]> fs
    /\ forall j, j < k ->
         isfile fs (file_path d (PyStr.add_copies j (url_filename u))) = true.
Proof.
  unfold save_image. intros H.
  destruct (free_name (S (size fs)) fs d (url_filename u)) as [n|] eqn:E;
    [|discriminate].
  apply free_name_Some in E as (k & _ & -> & Hfree & Hbefore).
  destruct (fetch u) as [|bytes complete]; [discriminate|].
  destruct (open_fails _); [discriminate|].
  destruct complete; [|discriminate]. injection H as <-.
  exists k, bytes. simpl. apply isfile_false in Hfree. auto.
Qed.

(** X14. After a save that did not raise, [image_exists] holds for the
    same URL and folder: the next discovery stops at that post. *)
Theorem image_exists_after_save
    (fetch : string -> fetched) (open_fails : string -> bool)
    (fs fs' : gmap string content) (u d : string) :
  save_image fetch open_fails fs u d = Saved fs' ->
  image_exists fs' u d = true.
Proof.
  intros H. apply save_image_Saved in H as (k & bytes & _ & Hfree & -> & Hbefore).
  unfold image_exists. apply isfile_true.
  destruct k as [|k].
  - simpl. rewrite lookup_insert_eq. eauto.
  - assert (Hbase : isfile fs (file_path d (url_filename u)) = true)
      by (apply (Hbefore 0); lia).
    apply isfile_true in Hbase.
    rewrite lookup_insert_ne; [exact Hbase|].
    intros Heq. rewrite Heq in Hfree.
    rewrite Hfree in Hbase. destruct Hbase as [x Hx]. discriminate.
Qed.

Lemma image_exists_after_save_witness :
  image_exists (<["C:\pics\a.png" := [Byte.x01]]> no_files)
    "http://x.com/a.png" "C:\pics" = true.
Proof.
  apply (image_exists_after_save (fun _ => Stream [Byte.x01] true) (fun _ => false)
           no_files _ "http://x.com/a.png" "C:\pics").
  vm_compute. reflexivity.
Defined.

(** ** The download phase, further *)

Section PoolInvariants.
Import Download.
Variable fetch : string -> fetched.
Variable open_fails : string -> bool.

Lemma omap_insert_perm {A B} (f : A -> option B) (l : list A) (i : nat) (x y : A) :
  l !! i = Some x ->
  (option_list (f y) ++ omap f l)%list
    ≡ₚ (option_list (f x) ++ omap f (<[i := y]> l))%list.
Proof.
  revert i. induction l as [|z l IH]; intros i Hi; [discriminate|].
  destruct i as [|i]; simpl in Hi.
  - injection Hi as ->. simpl.
    destruct (f x), (f y); simpl; try reflexivity. apply perm_swap.
  - specialize (IH i Hi). simpl.
    destruct (f z) as [b|]; simpl; [|exact IH].
    destruct (f y) as [by'|], (f x) as [bx|]; simpl in *.
    + rewrite perm_swap, IH. apply perm_swap.
    + rewrite perm_swap, IH. reflexivity.
    + rewrite IH. apply perm_swap.
    + rewrite IH. reflexivity.
Qed.

(** A worker that moves on with the task it holds, or with none. *)
Lemma held_same (l : list worker) (i : nat) (x y : worker) :
  l !! i = Some x -> held y = held x ->
  omap held (<[i := y]> l) ≡ₚ omap held l.
Proof.
  intros Hi Heq. pose proof (omap_insert_perm held l i x y Hi) as H.
  rewrite Heq in H. apply Permutation_app_inv_l in H. symmetry. exact H.
Qed.

(** A worker that takes a task. *)
Lemma held_take (l : list worker) (i : nat) (x y : worker) (t : task) :
  l !! i = Some x -> held x = None -> held y = Some t ->
  omap held (<[i := y]> l) ≡ₚ t :: omap held l.
Proof.
  intros Hi Hx Hy. pose proof (omap_insert_perm held l i x y Hi) as H.
  rewrite Hx, Hy in H. simpl in H. symmetry. exact H.
Qed.

(** A worker that has answered for its task. *)
Lemma held_release (l : list worker) (i : nat) (x y : worker) (t : task) :
  l !! i = Some x -> held x = Some t -> held y = None ->
  t :: omap held (<[i := y]> l) ≡ₚ omap held l.
Proof.
  intros Hi Hx Hy. pose proof (omap_insert_perm held l i x y Hi) as H.
  rewrite Hx, Hy in H. simpl in H. symmetry. exact H.
Qed.

Lemma accounted_step (t : tid) (p p' : pool) :
  step fetch open_fails t p = Some p' -> accounted p' ≡ₚ accounted p.
Proof.
  intros Hstep. unfold accounted, in_flight. destruct t as [i|]; simpl in Hstep.
  - worker_cases Hstep Ei.
    + injection Hstep as <-. simpl.
      rewrite (held_same _ i AtEmpty _ Ei); [reflexivity|].
      destruct (queue p); reflexivity.
    + destruct (queue p) as [|tk rest] eqn:Eq; [discriminate|].
      injection Hstep as <-. simpl.
      rewrite (held_take _ i AtGet _ tk Ei) by reflexivity. simpl.
      apply Permutation_app_head, Permutation_app_head.
      apply Permutation_middle.
    + destruct (free_name _ _ _ _); injection Hstep as <-; simpl;
        rewrite (held_same _ i _ _ Ei); reflexivity.
    + injection Hstep as <-. simpl.
      rewrite (held_same _ i _ _ Ei); reflexivity.
    + injection Hstep as <-. simpl.
      rewrite (held_same _ i _ _ Ei); reflexivity.
    + destruct (open_fails _); injection Hstep as <-; simpl;
        rewrite (held_same _ i _ _ Ei); reflexivity.
    + injection Hstep as <-. simpl. rewrite map_app. simpl.
      apply Permutation_app_head. rewrite <- app_assoc. simpl.
      apply Permutation_app_head.
      match type of Ei with _ = Some (AtPut ?tk _) =>
        rewrite <- (held_release _ i _ AtTaskDone tk Ei) by reflexivity
      end.
      reflexivity.
    + injection Hstep as <-. simpl.
      rewrite (held_same _ i AtTaskDone _ Ei); reflexivity.
  - unfold main_step in Hstep. destruct (main_pc p).
    + injection Hstep as <-. reflexivity.
    + destruct (status_queue p) as [|[[u sub] st] rest]; [discriminate|].
      injection Hstep as <-. simpl. rewrite map_app. simpl.
      rewrite <- app_assoc. reflexivity.
    + discriminate.
Qed.

Lemma accounted_run (sched : list tid) (p : pool) :
  accounted (run_schedule fetch open_fails sched p) ≡ₚ accounted p.
Proof.
  apply (run_schedule_invariant fetch open_fails (fun p' => accounted p' ≡ₚ accounted p));
    [|reflexivity].
  intros t p1 p2 Hp Hstep. rewrite <- Hp. exact (accounted_step t p1 p2 Hstep).
Qed.

Lemma accounted_start (n : nat) (q : list task) (fs : gmap string content) :
  accounted (start_workers n q fs) = map task_line q.
Proof.
  unfold accounted, in_flight, start_workers. simpl.
  induction n as [|n IH]; simpl; [reflexivity | exact IH].
Qed.

(** A step changes the files only by a write, and a write goes to a name
    that was free when its worker tested it. *)
Lemma kept_step (fs0 : gmap string content) (t : tid) (p p' : pool) :
  kept fs0 p -> step fetch open_fails t p = Some p' -> kept fs0 p'.
Proof.
  unfold kept. intros [Hsub Hall] Hstep. destruct t as [i|]; simpl in Hstep.
  - worker_cases Hstep Ei.
    + injection Hstep as <-. simpl. split; [exact Hsub|].
      apply Forall_insert; [exact Hall|]. destruct (queue p); exact I.
    + destruct (queue p) as [|tk rest]; [discriminate|].
      injection Hstep as <-. simpl. split; [exact Hsub|].
      apply Forall_insert; [exact Hall | exact I].
    + destruct (free_name _ _ _ _) as [n|] eqn:E; injection Hstep as <-; simpl;
        (split; [exact Hsub|]); (apply Forall_insert; [exact Hall|]); [|exact I].
      apply free_name_Some in E as (k & _ & _ & Hfree & _).
      apply isfile_false in Hfree. simpl.
      eapply lookup_weaken_None; [exact Hfree | exact Hsub].
    + injection Hstep as <-. simpl. split; [exact Hsub|].
      apply Forall_insert; [exact Hall|].
      exact (Forall_lookup_1 _ _ _ _ Hall Ei).
    + injection Hstep as <-. simpl. split; [exact Hsub|].
      apply Forall_insert; [exact Hall | exact I].
    + pose proof (Forall_lookup_1 _ _ _ _ Hall Ei) as Hnew. simpl in Hnew.
      destruct (open_fails _); injection Hstep as <-; simpl.
      * split; [exact Hsub|]. apply Forall_insert; [exact Hall | exact I].
      * split; [apply insert_subseteq_r; assumption|].
        apply Forall_insert; [exact Hall | exact I].
    + injection Hstep as <-. simpl. split; [exact Hsub|].
      apply Forall_insert; [exact Hall | exact I].
    + injection Hstep as <-. simpl. split; [exact Hsub|].
      apply Forall_insert; [exact Hall | exact I].
  - unfold main_step in Hstep. destruct (main_pc p).
    + injection Hstep as <-. simpl. auto.
    + destruct (status_queue p) as [|[[u sub] st] rest]; [discriminate|].
      injection Hstep as <-. simpl. auto.
    + discriminate.
Qed.

(** No step removes a file. *)
Lemma files_dom_step (t : tid) (p p' : pool) :
  step fetch open_fails t p = Some p' -> dom (files p) ⊆ dom (files p').
Proof.
  intros Hstep. destruct t as [i|]; simpl in Hstep.
  - worker_cases Hstep Ei;
      try (destruct (queue p); [discriminate Hstep|]);
      try (destruct (free_name _ _ _ _));
      try (destruct (open_fails _));
      injection Hstep as <-; simpl; try reflexivity.
    rewrite dom_insert. apply union_subseteq_r.
  - unfold main_step in Hstep. destruct (main_pc p).
    + injection Hstep as <-. reflexivity.
    + destruct (status_queue p) as [|[[u sub] st] rest]; [discriminate|].
      injection Hstep as <-. reflexivity.
    + discriminate.
Qed.

(** A worker that has exited does not move; when all have, none does. *)
Lemma all_exited (p : pool) (i : nat) (wk : worker) :
  workers_alive p = false -> threads p !! i = Some wk -> wk = Exited.
Proof.
  unfold workers_alive. intros Halive Hi.
  destruct (is_alive wk) eqn:Ea; [|destruct wk; (discriminate || reflexivity)].
  assert (existsb is_alive (threads p) = true) as Hc; [|congruence].
  apply existsb_exists. exists wk. split; [|exact Ea].
  apply list_elem_of_In. eapply list_elem_of_lookup_2. exact Hi.
Qed.

(** What a step of a worker leaves alone. *)
Lemma worker_step_frame (i : nat) (p p' : pool) :
  worker_step fetch open_fails i p = Some p' ->
  exists wk wk', threads p !! i = Some wk /\ wk <> Exited
    /\ threads p' = <[i := wk']> (threads p)
    /\ main_pc p' = main_pc p /\ reported p' = reported p
    /\ (wk' = Exited -> queue p = [] /\ queue p' = [])
    /\ (queue p = [] -> queue p' = []).
Proof.
  intros Hstep. worker_cases Hstep Ei;
    try (destruct (queue p) as [|tk rest] eqn:Eq; [discriminate Hstep|]);
    try (destruct (free_name _ _ _ _));
    try (destruct (open_fails _));
    injection Hstep as <-; simpl;
    eexists _, _; (split; [reflexivity|]); (split; [discriminate|]);
    (split; [reflexivity|]); (split; [reflexivity|]); (split; [reflexivity|]);
    (split; [try discriminate | try (intros; assumption); try discriminate]).
  destruct (queue p); [auto | discriminate].
Qed.

Lemma threads_length_step (t : tid) (p p' : pool) :
  step fetch open_fails t p = Some p' -> length (threads p') = length (threads p).
Proof.
  intros Hstep. destruct t as [i|]; simpl in Hstep.
  - apply worker_step_frame in Hstep as (wk & wk' & _ & _ & -> & _).
    apply length_insert.
  - unfold main_step in Hstep. destruct (main_pc p).
    + injection Hstep as <-. reflexivity.
    + destruct (status_queue p) as [|[[u sub] st] rest]; [discriminate|].
      injection Hstep as <-. reflexivity.
    + discriminate.
Qed.

Lemma done_after_workers_step (t : tid) (p p' : pool) :
  done_after_workers p -> step fetch open_fails t p = Some p' ->
  done_after_workers p'.
Proof.
  unfold done_after_workers. intros Hp Hstep Hdone. destruct t as [i|]; simpl in Hstep.
  - apply worker_step_frame in Hstep as (wk & wk' & Ei & Hwk & _ & Hmain & _).
    rewrite Hmain in Hdone. specialize (Hp Hdone).
    contradiction (Hwk (all_exited p i wk Hp Ei)).
  - unfold main_step in Hstep. destruct (main_pc p) eqn:Em.
    + injection Hstep as <-. simpl in Hdone.
      destruct (workers_alive p) eqn:Ea; [discriminate|].
      unfold workers_alive in *. simpl. exact Ea.
    + destruct (status_queue p) as [|[[u sub] st] rest]; [discriminate|].
      injection Hstep as <-. discriminate.
    + discriminate.
Qed.

Lemma exited_on_empty_step (t : tid) (p p' : pool) :
  exited_on_empty p -> step fetch open_fails t p = Some p' -> exited_on_empty p'.
Proof.
  unfold exited_on_empty. intros Hp Hstep [j Hj]. destruct t as [i|]; simpl in Hstep.
  - apply worker_step_frame in Hstep
      as (wk & wk' & Ei & Hwk & Hth & _ & _ & Hexit & Hq).
    rewrite Hth in Hj. destruct (decide (i = j)) as [->|Hne].
    + rewrite list_lookup_insert_eq in Hj by (eapply lookup_lt_Some; exact Ei).
      injection Hj as ->. apply Hexit. reflexivity.
    + rewrite list_lookup_insert_ne in Hj by exact Hne.
      apply Hq, Hp. eauto.
  - unfold main_step in Hstep. destruct (main_pc p).
    + injection Hstep as <-. simpl in *. apply Hp. eauto.
    + destruct (status_queue p) as [|[[u sub] st] rest]; [discriminate|].
      injection Hstep as <-. simpl in *. apply Hp. eauto.
    + discriminate.
Qed.

Lemma in_flight_all_exited (p : pool) :
  workers_alive p = false -> in_flight p = [].
Proof.
  intros Halive. unfold in_flight.
  assert (Hall : Forall (fun wk => wk = Exited) (threads p)).
  { apply Forall_forall. intros wk Hwk.
    apply list_elem_of_lookup in Hwk as [i Hi]. exact (all_exited p i wk Halive Hi). }
  induction Hall as [|wk l -> _ IH]; simpl; [reflexivity | exact IH].
Qed.

(** The schedule [in_turn] on a queue of the length it is made for. *)
Lemma in_turn_run (q : list task) :
  forall (r : list line) (fs : gmap string content),
  let p := run_schedule fetch open_fails (in_turn (length q))
             {| queue := q; status_queue := [];
                threads := [AtEmpty; AtEmpty; AtEmpty; AtEmpty];
                main_pc := AtAlive; reported := r; files := fs |} in
  main_pc p = Done /\ queue p = [] /\ status_queue p = []
  /\ threads p = [Exited; Exited; Exited; Exited]
  /\ map line_key (reported p) = (map line_key r ++ map task_line q)%list.
Proof.
  induction q as [|[[u d] sub] q IH]; intros r fs.
  - simpl. rewrite app_nil_r. auto.
  - change (in_turn (length ((u, d, sub) :: q)))
      with (([Worker 0; Worker 0] ++ [Worker 0; Worker 0; Worker 0; Worker 0])
              ++ [Main; Main; Worker 0] ++ in_turn (length q))%list.
    rewrite run_schedule_app.
    rewrite (task_steps_alone fetch open_fails 0 _ u d sub q) by reflexivity.
    cbn -[save_image saved_fs in_turn].
    unfold set_thread, set_main. cbn -[save_image saved_fs in_turn].
    match goal with |- context [run_schedule _ _ _ ?p0] =>
      match p0 with
      | {| reported := ?r'; files := ?fs' |} =>
          destruct (IH r' fs') as (H1 & H2 & H3 & H4 & H5)
      end
    end.
    repeat (split; [assumption|]).
    etransitivity; [exact H5|]. rewrite map_app, <- app_assoc. reflexivity.
Qed.

End PoolInvariants.

(** X16. Under every schedule, each task that discovery queued is at any
    moment in exactly one place: in the download queue, held by one worker,
    in the status queue, or reported.  No task is taken by two workers,
    none is reported twice, none is lost, and nothing is reported that was
    not queued. *)
Theorem pool_accounts_for_every_task
    (fetch : string -> fetched) (open_fails : string -> bool)
    (n : nat) (q : list task) (fs : gmap string content)
    (sched : list Download.tid) :
  accounted (Download.run_schedule fetch open_fails sched
               (Download.start_workers n q fs))
    ≡ₚ map task_line q.
Proof. rewrite accounted_run, accounted_start. reflexivity. Qed.

(** X17. Under every schedule the download phase leaves every file that
    existed when it began as it was. *)
Theorem pool_keeps_existing_files
    (fetch : string -> fetched) (open_fails : string -> bool)
    (n : nat) (q : list task) (fs : gmap string content)
    (sched : list Download.tid) :
  fs ⊆ Download.files (Download.run_schedule fetch open_fails sched
                         (Download.start_workers n q fs)).
Proof.
  refine (proj1 (run_schedule_invariant fetch open_fails (kept fs) _ sched _ _)).
  - intros t p p' Hp Hstep. exact (kept_step fetch open_fails fs t p p' Hp Hstep).
  - split; [reflexivity|]. simpl. apply Forall_replicate. exact I.
Qed.

(** X18. When the main thread has left its loop, under whatever schedule,
    every worker has returned, the download queue is empty, and every task
    that discovery queued has its result, either reported or still in the
    status queue. *)
Theorem done_means_all_downloaded
    (fetch : string -> fetched) (open_fails : string -> bool)
    (n : nat) (q : list task) (fs : gmap string content)
    (sched : list Download.tid) :
  0 < n ->
  Download.main_pc (download_phase fetch open_fails n q fs sched) = Download.Done ->
  Download.workers_alive (download_phase fetch open_fails n q fs sched) = false
  /\ Download.queue (download_phase fetch open_fails n q fs sched) = []
  /\ (map line_key (Download.reported (download_phase fetch open_fails n q fs sched))
        ++ map status_line
             (Download.status_queue (download_phase fetch open_fails n q fs sched)))%list
     ≡ₚ map task_line q.
Proof.
  set (p := download_phase fetch open_fails n q fs sched).
  intros Hn Hdone.
  assert (Hinv : done_after_workers p /\ exited_on_empty p
                 /\ length (Download.threads p) = n).
  { apply (run_schedule_invariant fetch open_fails
             (fun p => done_after_workers p /\ exited_on_empty p
                       /\ length (Download.threads p) = n)).
    - intros t p1 p2 (H1 & H2 & H3) Hstep. split; [|split].
      + exact (done_after_workers_step fetch open_fails t p1 p2 H1 Hstep).
      + exact (exited_on_empty_step fetch open_fails t p1 p2 H2 Hstep).
      + rewrite (threads_length_step fetch open_fails t p1 p2 Hstep). exact H3.
    - split; [discriminate|]. split.
      + intros [i Hi]. simpl in Hi.
        apply lookup_replicate in Hi as [Hi _]. discriminate.
      + simpl. apply length_replicate. }
  destruct Hinv as (Hdw & Hex & Hlen).
  pose proof (Hdw Hdone) as Halive.
  assert (Hq : Download.queue p = []).
  { apply Hex. exists 0.
    destruct (Download.threads p !! 0) as [wk|] eqn:E.
    - rewrite (all_exited p 0 wk Halive E). reflexivity.
    - apply lookup_ge_None in E. lia. }
  split; [exact Halive|]. split; [exact Hq|].
  pose proof (accounted_run fetch open_fails sched (Download.start_workers n q fs)) as Hacc.
  change (Download.run_schedule fetch open_fails sched (Download.start_workers n q fs))
    with p in Hacc. rewrite accounted_start in Hacc.
  unfold accounted in Hacc. rewrite (in_flight_all_exited p Halive), Hq in Hacc.
  simpl in Hacc. rewrite app_nil_r in Hacc. exact Hacc.
Qed.

Lemma done_means_all_downloaded_witness :
  Download.workers_alive
    (download_phase (fun _ => FetchRaises) (fun _ => false) 2
       [("http://x.com/a.png", "C:\pics", "pics")] no_files
       [Download.Worker 0; Download.Worker 0; Download.Worker 0;
        Download.Worker 0; Download.Worker 0; Download.Worker 0;
        Download.Worker 0; Download.Worker 0; Download.Worker 1;
        Download.Main]) = false.
Proof.
  apply (done_means_all_downloaded (fun _ => FetchRaises) (fun _ => false) 2
           [("http://x.com/a.png", "C:\pics", "pics")] no_files
           [Download.Worker 0; Download.Worker 0; Download.Worker 0;
            Download.Worker 0; Download.Worker 0; Download.Worker 0;
            Download.Worker 0; Download.Worker 0; Download.Worker 1;
            Download.Main]).
  - lia.
  - vm_compute. reflexivity.
Defined.

(** X19. There is a schedule on which the program does what it is meant
    to: when worker 0 takes the tasks one at a time and the main thread
    reports each result before the worker goes on, every task is reported,
    in the order of the queue, both queues end empty, the workers return
    and the main thread leaves its loop. *)
Theorem in_turn_reports_all
    (fetch : string -> fetched) (open_fails : string -> bool)
    (q : list task) (fs : gmap string content) :
  let p := Download.run_schedule fetch open_fails (in_turn (length q))
             (Download.start_workers NUM_WORKERS q fs) in
  Download.main_pc p = Download.Done
  /\ Download.queue p = [] /\ Download.status_queue p = []
  /\ Download.workers_alive p = false
  /\ map line_key (Download.reported p) = map task_line q.
Proof.
  destruct (in_turn_run fetch open_fails q [] fs) as (H1 & H2 & H3 & H4 & H5).
  change (Download.start_workers NUM_WORKERS q fs)
    with {| Download.queue := q; Download.status_queue := [];
            Download.threads := [Download.AtEmpty; Download.AtEmpty;
                                 Download.AtEmpty; Download.AtEmpty];
            Download.main_pc := Download.AtAlive; Download.reported := [];
            Download.files := fs |}.
  simpl. repeat (split; [assumption|]). split; [|exact H5].
  unfold Download.workers_alive. rewrite H4. reflexivity.
Qed.

(** X13. Under every schedule, from any state of the download phase, no
    file is removed: what is a file at one moment is a file at every later
    moment.  (Its content may change: see the next theorem.) *)
Theorem pool_never_removes_files
    (fetch : string -> fetched) (open_fails : string -> bool)
    (p : Download.pool) (sched : list Download.tid) :
  dom (Download.files p)
    ⊆ dom (Download.files (Download.run_schedule fetch open_fails sched p)).
Proof.
  apply (run_schedule_invariant fetch open_fails
           (fun p' => dom (Download.files p) ⊆ dom (Download.files p')));
    [|reflexivity].
  intros t p1 p2 Hp Hstep. etransitivity; [exact Hp|].
  exact (files_dom_step fetch open_fails t p1 p2 Hstep).
Qed.

(** C7. Two tasks with the same file name for the same folder, and the
    [NUM_WORKERS] workers of the program: workers 0 and 1 both end the
    [while] loop of [save_image] on ["a.png"], which is free; worker 0
    writes its bytes to it; worker 1 then opens the same path and writes
    over them.  Both saves are reported as successes and one file is left,
    with the bytes of the second download. *)
Theorem concurrent_saves_overwrite (b1 b2 : content) :
  let first_written :=
    Download.run_schedule (two_sources b1 b2) (fun _ => false)
      (firstn 8 overlapping_saves)
      (Download.start_workers NUM_WORKERS same_name_queue no_files) in
  let both_written :=
    Download.run_schedule (two_sources b1 b2) (fun _ => false)
      overlapping_saves
      (Download.start_workers NUM_WORKERS same_name_queue no_files) in
  Download.threads first_written !! 1
    = Some (Download.AtRequest ("http://y.com/a.png", "C:\pics", "pics") "a.png")
  /\ Download.files first_written = {[ "C:\pics\a.png" := b1 ]}
  /\ Download.files both_written = {[ "C:\pics\a.png" := b2 ]}
  /\ Download.status_queue both_written
     = [("http://x.com/a.png", "pics", Success);
        ("http://y.com/a.png", "pics", Success)].
Proof. vm_compute. repeat split; reflexivity. Qed.

(** ** The name loop, test by test *)

Lemma free_name_first (fuel k : nat) (fs : gmap string content) (d f : string) :
  k < fuel ->
  (forall j, j < k -> isfile fs (file_path d (PyStr.add_copies j f)) = true) ->
  isfile fs (file_path d (PyStr.add_copies k f)) = false ->
  free_name fuel fs d f = Some (PyStr.add_copies k f).
Proof.
  revert fuel f. induction k as [|k IH]; intros fuel f Hk Htaken Hfree;
    (destruct fuel as [|fuel]; [lia|]).
  - simpl in *. rewrite Hfree. reflexivity.
  - pose proof (Htaken 0 ltac:(lia)) as H0. simpl in H0. simpl. rewrite H0.
    apply IH; [lia | | exact Hfree].
    intros j Hj. apply (Htaken (S j)). lia.
Qed.

Lemma free_name_over_last (fss : list (gmap string content)) (d f n : string)
    (fs : gmap string content) :
  grows fss ->
  free_name_over fss d f = Some (n, fs) ->
  fs ∈ fss
  /\ exists k, n = PyStr.add_copies k f
      /\ isfile fs (file_path d n) = false
      /\ forall j, j < k -> isfile fs (file_path d (PyStr.add_copies j f)) = true.
Proof.
  revert f. induction fss as [|fs0 rest IH]; intros f Hgrows H; [discriminate|].
  simpl in H. destruct Hgrows as [Hfirst Hrest].
  destruct (isfile fs0 (file_path d f)) eqn:E.
  - destruct (IH _ Hrest H) as (Hin & k & -> & Hfree & Htaken).
    split; [right; exact Hin|]. exists (S k). split; [reflexivity|].
    split; [exact Hfree|]. intros [|j] Hj; simpl.
    + apply isfile_true, elem_of_dom. apply isfile_true, elem_of_dom in E.
      rewrite Forall_forall in Hfirst. exact (Hfirst fs Hin _ E).
    + apply Htaken. lia.
  - injection H as <- <-. split; [left|]. exists 0. split; [reflexivity|].
    split; [exact E|]. intros j Hj. lia.
Qed.

(** X15. The [while] loop of [save_image] can have the writes of other
    threads between its tests.  As no file is removed, it ends on the name
    that the loop run at once, at the moment of its last test, ends on. *)
Theorem name_loop_as_one_step (fss : list (gmap string content)) (d f n : string)
    (fs : gmap string content) :
  grows fss ->
  free_name_over fss d f = Some (n, fs) ->
  fs ∈ fss /\ free_name (S (size fs)) fs d f = Some n.
Proof.
  intros Hgrows H.
  destruct (free_name_over_last fss d f n fs Hgrows H)
    as (Hin & k & -> & Hfree & Htaken).
  split; [exact Hin|].
  apply free_name_first; [|exact Htaken | exact Hfree].
  pose proof (taken_names_bound fs d f k Htaken). lia.
Qed.

Lemma name_loop_as_one_step_witness :
  free_name
    (S (size (<["C:\pics\a.png_copy" := []]> (<["C:\pics\a.png" := []]> no_files))))
    (<["C:\pics\a.png_copy" := []]> (<["C:\pics\a.png" := []]> no_files))
    "C:\pics" "a.png"
  = Some "a.png_copy_copy".
Proof.
  apply (fun H1 H2 => proj2 (name_loop_as_one_step
           [<["C:\pics\a.png" := []]> no_files;
            <["C:\pics\a.png_copy" := []]> (<["C:\pics\a.png" := []]> no_files);
            <["C:\pics\a.png_copy" := []]> (<["C:\pics\a.png" := []]> no_files)]
           "C:\pics" "a.png" "a.png_copy_copy"
           (<["C:\pics\a.png_copy" := []]> (<["C:\pics\a.png" := []]> no_files))
           H1 H2)).
  - assert (Hab : dom (<["C:\pics\a.png" := []]> no_files)
                    ⊆ dom (<["C:\pics\a.png_copy" := []]>
                             (<["C:\pics\a.png" := []]> no_files)))
      by (rewrite (dom_insert_L (<["C:\pics\a.png" := []]> no_files));
          apply union_subseteq_r).
    simpl. split; [constructor; [exact Hab | constructor; [exact Hab | constructor]]|].
    split; [constructor; [reflexivity | constructor]|].
    split; [constructor | exact I].
  - vm_compute. reflexivity.
Defined.
